(** * Go-tutorials clean-up scripts: a shallow embedding

    The two scripts [aggressive_simplify.py] and [simplify_files.py] rewrite
    Go teaching files in place.  Each reads the whole file into one Python
    [str], runs a fixed sequence of text passes over it and writes the result
    back.  The passes are embedded here as total functions on strings.  The
    file system is left out: a document is the text that [f.read()] returns,
    and running a script twice is applying its function twice (what is
    written is read back unchanged, the text holding no carriage return
    after the first read).

    Layout: the embedding of [aggressive_simplify] step by step, the section
    filter of [simplify_go_file], the vocabulary of the statements, then the
    properties: Block Scanner, line loop, section filter, blank-run collapse,
    and idempotence of the whole pipeline. *)

From Stdlib Require Import String Ascii.
From Stdlib Require Import List Arith ZArith NArith Bool Lia.
From Equations Require Import Equations.
Import ListNotations.

(** ** Python strings *)

(** A Python [str] is a sequence of Unicode code points. *)
Definition char := N.
Definition str := list char.

(** ASCII literals of the source, as code-point lists. *)
Definition lit (s : string) : str := List.map N_of_ascii (list_ascii_of_string s).
Arguments lit s%_string.

Definition newline : char := 10%N.
Definition open_brace : char := 123%N.
Definition close_brace : char := 125%N.

(** [s.startswith(p)] *)
Fixpoint startswith (s p : str) {struct p} : bool :=
  match p, s with
  | [], _ => true
  | _ :: _, [] => false
  | a :: p', b :: s' => N.eqb a b && startswith s' p'
  end.

(** [s.find(sub)]: index of the leftmost occurrence of [sub] in [s].  The
    source searches literals only ([re.search] of an escaped literal, and the
    [in] operator), so this one function serves both. *)
Fixpoint find (s sub : str) {struct s} : option nat :=
  if startswith s sub then Some 0
  else match s with
       | [] => None
       | _ :: s' => option_map S (find s' sub)
       end.

(** [sub in s] *)
Definition contains (s sub : str) : bool :=
  match find s sub with Some _ => true | None => false end.

(** White space as CPython has it ([Py_UNICODE_ISSPACE]): the code points
    that [str.strip()] removes and that [\s] matches in a [str] pattern. *)
Definition isspace (c : char) : bool :=
  ((9 <=? c) && (c <=? 13) || (28 <=? c) && (c <=? 32)
   || (c =? 133) || (c =? 160) || (c =? 5760)
   || (8192 <=? c) && (c <=? 8202)
   || (c =? 8232) || (c =? 8233) || (c =? 8239) || (c =? 8287)
   || (c =? 12288))%N.

(** [s.lstrip()] and [s.rstrip()] *)
Fixpoint lstrip (s : str) : str :=
  match s with
  | [] => []
  | c :: s' => if isspace c then lstrip s' else s
  end.

Definition rstrip (s : str) : str := rev (lstrip (rev s)).

(** [s.strip()] *)
Definition strip (s : str) : str := rstrip (lstrip s).

(** [s.split('\n')]: never empty, [''.split('\n') == ['']]. *)
Fixpoint split_nl (s : str) : list str :=
  match s with
  | [] => [[]]
  | c :: s' =>
      if N.eqb c newline then [] :: split_nl s'
      else match split_nl s' with
           | l :: ls => (c :: l) :: ls
           | [] => [[c]]
           end
  end.

(** ['\n'.join(ls)] *)
Fixpoint join_nl (ls : list str) : str :=
  match ls with
  | [] => []
  | l :: ls' =>
      match ls' with
      | [] => l
      | _ :: _ => l ++ newline :: join_nl ls'
      end
  end.

(** Number of occurrences of one character. *)
Definition count (c : char) (s : str) : nat := count_occ N.eq_dec s c.

(** [sub] occurs somewhere in [s]. *)
Definition occurs (sub s : str) : Prop := exists pre post, s = pre ++ sub ++ post.

(** ** Top-Level Rewrite ([aggressive_simplify], step 1) *)

(** Step 1, [re.sub(r'^package main', 'package intermediate', content,
    flags=re.MULTILINE)].  With [re.MULTILINE] the anchor matches at the
    start of the text and after every newline, that is at the start of every
    line of [content.split('\n')]; the pattern holds no newline, so each
    line is rewritten on its own, at most once. *)
Definition relabel_line (line : str) : str :=
  if startswith line (lit "package main")
  then lit "package intermediate" ++ skipn (length (lit "package main")) line
  else line.

Definition relabel (content : str) : str :=
  join_nl (List.map relabel_line (split_nl content)).

(** ** Noise Filter: the line loop ([aggressive_simplify], step 2) *)

(** [line.strip().startswith('/*')] *)
Definition opens_comment (line : str) : bool := startswith (strip line) (lit "/*").

(** ['*/' in line] *)
Definition closes_comment (line : str) : bool := contains line (lit "*/").

(** The inner [while] of step 2: appends lines to [comment_lines] up to and
    including the first one that holds the closing marker, or up to the end.
    Returns the block and the lines left for the outer loop. *)
Fixpoint take_comment (comment_lines rest : list str) : list str * list str :=
  match rest with
  | [] => (comment_lines, [])
  | l :: rest' =>
      if closes_comment l then (comment_lines ++ [l], rest')
      else take_comment (comment_lines ++ [l]) rest'
  end.

(** The character class [[/=\s_-]]. *)
Definition separator (c : char) : bool :=
  ((c =? 47) || (c =? 61) || isspace c || (c =? 95) || (c =? 45))%N.

(** Length of the longest prefix of [s] made of characters satisfying [p]. *)
Fixpoint run_length (p : char -> bool) (s : str) : nat :=
  match s with
  | [] => 0
  | c :: s' => if p c then S (run_length p s') else 0
  end.

(** [re.match(r'^[/=\s_-]{30,}', line)] succeeds. *)
Definition decorative (line : str) : bool := 30 <=? run_length separator line.

(** ['Example' in line and 'func ' not in line] *)
Definition example_header (line : str) : bool :=
  contains line (lit "Example") && negb (contains line (lit "func ")).

(** [if len(comment_lines) < 4: new_lines.extend(comment_lines)]: what a
    comment block contributes to [new_lines]. *)
Definition keep_short (comment_lines : list str) : list str :=
  if length comment_lines <? 4 then comment_lines else [].

(** The outer [while i < len(lines)] of step 2, run on the lines from [i] on;
    the result is what the loop appends to [new_lines]. *)
Equations? filter_lines (lines : list str) : list str by wf (length lines) lt :=
  filter_lines [] := [];
  filter_lines (line :: rest) with opens_comment line := {
    | true :=
        keep_short (fst (take_comment [line] rest))
        ++ filter_lines (snd (take_comment [line] rest));
    | false with decorative line := {
      | true := filter_lines rest;
      | false with example_header line := {
        | true := filter_lines rest;
        | false := line :: filter_lines rest } } }.
Proof.
  all: cbn [length]; try lia.
  enough (H : forall ls acc, length (snd (take_comment acc ls)) <= length ls)
    by (specialize (H rest [line]); lia).
  induction ls as [|l ls IH]; intros acc; cbn [take_comment]; [cbn; lia|].
  destruct (closes_comment l); [cbn; lia|].
  specialize (IH (acc ++ [l])). cbn [length]. lia.
Qed.

Definition noise_filter (content : str) : str :=
  join_nl (filter_lines (split_nl content)).

(** ** Block Scanner ([aggressive_simplify], step 3) *)

Definition entry_header : str := lit "func main() {".

(** The [while pos < len(content)] loop, run on the text from [pos] on.
    [Some pos] is the position of the closing brace found at
    [brace_count == 0]; [None] is the loop running off the end of the
    document ([found_end] stays [False]). *)
Fixpoint scan_braces (rest : str) (pos : nat) (brace_count : Z) : option nat :=
  match rest with
  | [] => None
  | c :: rest' =>
      if N.eqb c open_brace then scan_braces rest' (S pos) (brace_count + 1)
      else if N.eqb c close_brace then
        if Z.eqb brace_count 0 then Some pos
        else scan_braces rest' (S pos) (brace_count - 1)
      else scan_braces rest' (S pos) brace_count
  end.

Definition block_scanner (content : str) : str :=
  match find content entry_header with
  | None => content
  | Some start =>
      let pos := start + length entry_header in
      match scan_braces (skipn pos content) pos 0 with
      | Some pos' => firstn (pos' + 1) content
      | None => content
      end
  end.

(** ** Blank-run collapse and glyph clean-up (steps 4 and 5) *)

(** Step 4 (and step 6 of [simplify_go_file]), [re.sub(r'\n{3,}', '\n\n',
    content)]: a left-to-right pass that counts the newlines of the current
    run in [pending] and writes the run out when it ends, as two newlines
    when it has three or more. *)
Definition flush_newlines (pending : nat) : str :=
  if 3 <=? pending then [newline; newline] else repeat newline pending.

Fixpoint collapse_from (pending : nat) (s : str) : str :=
  match s with
  | [] => flush_newlines pending
  | c :: s' =>
      if N.eqb c newline then collapse_from (S pending) s'
      else flush_newlines pending ++ c :: collapse_from 0 s'
  end.

Definition collapse_blank (content : str) : str := collapse_from 0 content.

(** The glyphs of the class in step 5 (U+2554, U+255A, U+2551, U+255D,
    U+2550, U+255E, U+2561, U+2564, U+256A, U+255F, U+2562). *)
Definition box_glyph (c : char) : bool :=
  existsb (N.eqb c) [9556; 9562; 9553; 9565; 9552; 9566; 9569; 9572; 9578; 9567; 9570]%N.

(** Step 5, [re.sub(r'[...]{2,}', '', content)]: the glyphs of the current
    run are held in [pending]; a run of one is written out, a longer one is
    dropped. *)
Definition flush_glyphs (pending : str) : str :=
  if 2 <=? length pending then [] else pending.

Fixpoint cleanup_from (pending : str) (s : str) : str :=
  match s with
  | [] => flush_glyphs pending
  | c :: s' =>
      if box_glyph c then cleanup_from (pending ++ [c]) s'
      else flush_glyphs pending ++ c :: cleanup_from [] s'
  end.

Definition decorative_cleanup (content : str) : str := cleanup_from [] content.

(** The text that [aggressive_simplify] writes back for a file whose text is
    [content]. *)
Definition aggressive_simplify (content : str) : str :=
  let content := relabel content in
  let content := noise_filter content in
  let content := block_scanner content in
  let content := collapse_blank content in
  decorative_cleanup content.

(** ** Section filter ([simplify_go_file], steps 5 and 6) *)

(** ['KEY TAKEAWAYS' in line or 'COMPREHENSIVE GUIDE' in line] *)
Definition marker (line : str) : bool :=
  contains line (lit "KEY TAKEAWAYS") || contains line (lit "COMPREHENSIVE GUIDE").

(** [line.strip().startswith('func ')] *)
Definition declares_func (line : str) : bool := startswith (strip line) (lit "func ").

(** The [for] loop over the lines, with the flag [skip_section] threaded
    through; the result is what the loop appends to [filtered_lines]. *)
Fixpoint skip_sections (skip_section : bool) (lines : list str) : list str :=
  match lines with
  | [] => []
  | line :: rest =>
      let skip_section :=
        if marker line then true
        else if skip_section && declares_func line then false
        else skip_section in
      if skip_section then skip_sections skip_section rest
      else line :: skip_sections skip_section rest
  end.

(** Step 5, and step 5 followed by step 6. *)
Definition remove_sections (content : str) : str :=
  join_nl (skip_sections false (split_nl content)).

Definition remove_sections_and_collapse (content : str) : str :=
  collapse_blank (remove_sections content).

(** ** Vocabulary of the statements *)

(** The occurrence of [sub] between [pre] and [post] is the leftmost one of
    the whole text. *)
Definition leftmost (sub pre post : str) : Prop :=
  forall pre' post',
    pre ++ sub ++ post = pre' ++ sub ++ post' -> length pre <= length pre'.

(** Read from depth [depth], no closing brace of [s] is met at depth 0:
    every prefix of [s] closes at most [depth] braces more than it opens. *)
Definition never_closes (depth : nat) (s : str) : Prop :=
  forall n, count close_brace (firstn n s) <= depth + count open_brace (firstn n s).

(** [s] opens as many braces as it closes. *)
Definition brace_balanced (s : str) : Prop :=
  count open_brace s = count close_brace s.

(** A checker for [never_closes], for concrete texts. *)
Fixpoint never_closesb (depth : nat) (s : str) : bool :=
  match s with
  | [] => true
  | c :: s' =>
      if N.eqb c open_brace then never_closesb (S depth) s'
      else if N.eqb c close_brace then
        match depth with 0 => false | S d => never_closesb d s' end
      else never_closesb depth s'
  end.

(** The spec's DecorativeLine: the whole line is a run of at least 30
    separator characters. *)
Definition entirely_decorative (line : str) : Prop :=
  30 <= length line /\ forallb separator line = true.

(** The line starts with a run of at least 30 separator characters. *)
Definition begins_decorative (line : str) : Prop :=
  exists run tail,
    line = run ++ tail /\ 30 <= length run /\ forallb separator run = true.

(** The blank-run collapse as the spec words it, on lines: a maximal run of
    3 or more consecutive blank lines becomes one blank line, a shorter run
    stays. *)
Definition spec_flush_blank (pending : nat) : list str :=
  if 3 <=? pending then [[]] else repeat [] pending.

Fixpoint spec_collapse_lines_from (pending : nat) (lines : list str) : list str :=
  match lines with
  | [] => spec_flush_blank pending
  | l :: rest =>
      match l with
      | [] => spec_collapse_lines_from (S pending) rest
      | _ :: _ => spec_flush_blank pending ++ l :: spec_collapse_lines_from 0 rest
      end
  end.

Definition spec_collapse_lines (lines : list str) : list str :=
  spec_collapse_lines_from 0 lines.

(** No three newlines in a row in [s], given that [run] newlines come right
    before it. *)
Fixpoint short_runs (run : nat) (s : str) : bool :=
  match s with
  | [] => true
  | c :: s' =>
      if N.eqb c newline then (S run <? 3) && short_runs (S run) s'
      else short_runs 0 s'
  end.

(** The document holds no glyph of the clean-up class. *)
Definition glyph_free (content : str) : bool :=
  forallb (fun c => negb (box_glyph c)) content.

Definition unmixed (line : str) : bool :=
  negb (contains line (lit "Example") && contains line (lit "func ")).

Definition example_lines_unmixed (content : str) : bool :=
  forallb unmixed (split_nl content).

(** The last line of what step 3 makes of [filtered], the text that step 2
    hands to it, and the line of [filtered] of which that last line is the
    beginning.  When step 3 cuts, [cut_line] is the line in which it cuts and
    [kept_line] is that line up to the closing brace; when it does not, both
    are the last line of [filtered]. *)
Definition kept_line (filtered : str) : str :=
  last (split_nl (block_scanner filtered)) [].

Definition cut_line (filtered : str) : str :=
  nth (length (split_nl (block_scanner filtered)) - 1) (split_nl filtered) [].

(** The cut of step 3 takes away the [func ] on account of which step 2 kept
    the line: what is left of the line holds [Example] and no [func ], while
    the whole line holds [func ].  A second run of step 2 drops such a
    line. *)
Definition cut_exposes_example (filtered : str) : bool :=
  example_header (kept_line filtered) && contains (cut_line filtered) (lit "func ").

(** A line that step 1 leaves as it is. *)
Definition unlabelled (line : str) : Prop :=
  startswith line (lit "package main") = false.

(** A character that step 5 leaves as it is. *)
Definition plain (c : char) : Prop := box_glyph c = false.

(** Line lists that the line loop of step 2 leaves as they are, recognised
    by one left-to-right pass.  [inside] is [Some n] within a comment block
    of which [n] lines have been read. *)
Fixpoint settled (inside : option nat) (lines : list str) : bool :=
  match lines with
  | [] => true
  | l :: rest =>
      match inside with
      | None =>
          if opens_comment l then settled (Some 1) rest
          else negb (decorative l) && negb (example_header l) && settled None rest
      | Some n =>
          (S n <? 4) &&
          (if closes_comment l then settled None rest
           else settled (Some (S n)) rest)
      end
  end.

(** [drops_blank ls ls']: [ls'] is [ls] with some empty lines left out. *)
Inductive drops_blank : list str -> list str -> Prop :=
| drops_nil : drops_blank [] []
| drops_keep l ls ls' : drops_blank ls ls' -> drops_blank (l :: ls) (l :: ls')
| drops_skip ls ls' : drops_blank ls ls' -> drops_blank ([] :: ls) ls'.

(** ** The regular expressions of [simplify_go_file] *)

(** The patterns of steps 2 to 4 are sequences of literal texts, one-character
    classes, repetitions of a one-character class with a lower bound (greedy
    [{n,}], lazy [{n,}?]) and one group of literal alternatives.  [item] is
    that fragment of [re]; a [regex] is the sequence. *)
Inductive item : Type :=
| Chars (text : str)
| One (class : char -> bool)
| Greedy (class : char -> bool) (least : nat)
| Lazy (class : char -> bool) (least : nat)
| Alt (texts : list str).

Definition regex := list item.

(** A greedy repetition followed by the rest of the pattern [k]: take one
    more character when possible, and fall back to stopping here when the
    rest fails further on.  The result is the length matched. *)
Fixpoint greedy (class : char -> bool) (least : nat)
         (k : str -> option nat) (s : str) : option nat :=
  match s with
  | c :: s' =>
      if class c then
        match greedy class (pred least) k s' with
        | Some n => Some (S n)
        | None => if least =? 0 then k s else None
        end
      else if least =? 0 then k s else None
  | [] => if least =? 0 then k s else None
  end.

(** A lazy repetition: stop as soon as the rest of the pattern matches. *)
Fixpoint lazy (class : char -> bool) (least : nat)
         (k : str -> option nat) (s : str) : option nat :=
  match least with
  | 0 =>
      match k s with
      | Some n => Some n
      | None =>
          match s with
          | c :: s' => if class c then option_map S (lazy class 0 k s') else None
          | [] => None
          end
      end
  | S least' =>
      match s with
      | c :: s' => if class c then option_map S (lazy class least' k s') else None
      | [] => None
      end
  end.

(** Alternatives are tried from left to right. *)
Fixpoint first_alt (texts : list str) (k : str -> option nat) (s : str) : option nat :=
  match texts with
  | [] => None
  | t :: texts' =>
      if startswith s t then
        match k (skipn (length t) s) with
        | Some n => Some (length t + n)
        | None => first_alt texts' k s
        end
      else first_alt texts' k s
  end.

(** The backtracking match of [r] at the start of [s]: the length of the
    match that [re] finds there, if there is one. *)
Fixpoint match_here (r : regex) (s : str) : option nat :=
  match r with
  | [] => Some 0
  | Chars t :: r' =>
      if startswith s t
      then option_map (Nat.add (length t)) (match_here r' (skipn (length t) s))
      else None
  | One class :: r' =>
      match s with
      | c :: s' => if class c then option_map S (match_here r' s') else None
      | [] => None
      end
  | Greedy class least :: r' => greedy class least (match_here r') s
  | Lazy class least :: r' => lazy class least (match_here r') s
  | Alt texts :: r' => first_alt texts (match_here r') s
  end.

(** [re.sub(r, repl, s)] with a function [repl] of the matched text: the
    matches are looked for from left to right and do not overlap.  No pattern
    of the source matches the empty text, so a match has a positive
    length. *)
Equations? re_sub (r : regex) (repl : str -> str) (s : str) : str
  by wf (length s) lt :=
  re_sub r repl [] := [];
  re_sub r repl (c :: s') with match_here r (c :: s') := {
    | Some (S n) := repl (firstn (S n) (c :: s')) ++ re_sub r repl (skipn n s');
    | _ := c :: re_sub r repl s' }.
Proof.
  all: cbn [length]; try lia.
  rewrite length_skipn. lia.
Qed.

(** ** [simplify_go_file], steps 2 to 4, 7 and the result *)

Definition not_star (c : char) : bool := negb (N.eqb c 42).
Definition equals_sign (c : char) : bool := N.eqb c 61.
Definition any_char (c : char) : bool := true.
Definition upper (c : char) : bool := ((65 <=? c) && (c <=? 90))%N.
Definition not_quote (c : char) : bool := negb (N.eqb c 34).

(** Step 2, first pattern: [/\*\n[^*]*DEEP DIVE[^*]*\*/]. *)
Definition deep_dive_block : regex :=
  [Chars (lit "/*" ++ [newline]); Greedy not_star 0; Chars (lit "DEEP DIVE");
   Greedy not_star 0; Chars (lit "*/")].

(** Step 2, second pattern, under [re.DOTALL]:
    [// ={50,}.*?={50,}\n// [A-Z].*?\n// ={50,}.*?={50,}\n]. *)
Definition section_header : regex :=
  [Chars (lit "// "); Greedy equals_sign 50; Lazy any_char 0;
   Greedy equals_sign 50; Chars (newline :: lit "// "); One upper;
   Lazy any_char 0; Chars (newline :: lit "// "); Greedy equals_sign 50;
   Lazy any_char 0; Greedy equals_sign 50; Chars [newline]].

Definition remove_deep_dive (content : str) : str :=
  re_sub deep_dive_block (fun _ => []) content.

Definition remove_section_headers (content : str) : str :=
  re_sub section_header (fun _ => []) content.

(** Step 7: [if not content.startswith('package'): content =
    f'package intermediate\n\n{content}']. *)
Definition add_package_header (content : str) : str :=
  if startswith content (lit "package") then content
  else lit "package intermediate" ++ [newline; newline] ++ content.

(** [content != original_content] *)
Definition differs (a b : str) : bool :=
  if list_eq_dec N.eq_dec a b then false else true.

(** The class [\d] of a [str] pattern is the set of Unicode decimal digits of
    the running Python; it is left as a parameter. *)
Section Digits.

Variable decimal : char -> bool.

(** Step 3: [func (closure|recursion|pointer|function)Example\d+\(\)]. *)
Definition example_function : regex :=
  [Chars (lit "func ");
   Alt [lit "closure"; lit "recursion"; lit "pointer"; lit "function"];
   Chars (lit "Example"); Greedy decimal 1; Chars (lit "()")].

(** The [lambda] of step 3. *)
Definition rename_example (matched : str) : str :=
  if negb (contains matched (lit "Example")) then lit "func example()"
  else matched.

Definition rename_examples (content : str) : str :=
  re_sub example_function rename_example content.

(** Step 4, the pattern for a call of [fmt.Println] on a string literal that
    starts with backslash, [n], [=== Example], a number, a colon, and ends
    with [===]: the literal parts hold a double quote (34) and a backslash
    (92); the title between them is a run of one or more characters other
    than the double quote. *)
Definition println_header : regex :=
  [Chars (lit "fmt.Println(" ++ [34; 92]%N ++ lit "n=== Example ");
   Greedy decimal 1; Chars (lit ": "); Greedy not_quote 1;
   Chars (lit "===" ++ [34]%N ++ lit ")")].

Definition remove_println_headers (content : str) : str :=
  re_sub println_header (fun _ => []) content.

(** Steps 1 to 7 of [simplify_go_file] (step 8 does nothing). *)
Definition simplify_text (content : str) : str :=
  let content := relabel content in
  let content := remove_deep_dive content in
  let content := remove_section_headers content in
  let content := rename_examples content in
  let content := remove_println_headers content in
  let content := remove_sections content in
  let content := collapse_blank content in
  add_package_header content.

(** [simplify_go_file] on a file whose text is [original_content]: the text
    of the file after the call (it is written only when it differs) and the
    value returned. *)
Definition simplify_go_file (original_content : str) : str * bool :=
  let content := simplify_text original_content in
  if differs content original_content then (content, true)
  else (original_content, false).

End Digits.

(** The digits 0 to 9, which every [\d] holds. *)
Definition ascii_digit (c : char) : bool := ((48 <=? c) && (c <=? 57))%N.

(** ** Vocabulary of the further properties *)

(** [subseq l' l]: [l'] is [l] with some elements left out. *)
Inductive subseq {A : Type} : list A -> list A -> Prop :=
| subseq_nil : subseq [] []
| subseq_keep x l' l : subseq l' l -> subseq (x :: l') (x :: l)
| subseq_skip x l' l : subseq l' l -> subseq l' (x :: l).

(** The words of a pattern: what a match of [r] can be. *)
Inductive Matches : regex -> str -> Prop :=
| Matches_nil : Matches [] []
| Matches_chars t r w : Matches r w -> Matches (Chars t :: r) (t ++ w)
| Matches_one class r c w :
    class c = true -> Matches r w -> Matches (One class :: r) (c :: w)
| Matches_greedy class least r a w :
    forallb class a = true -> least <= length a -> Matches r w ->
    Matches (Greedy class least :: r) (a ++ w)
| Matches_lazy class least r a w :
    forallb class a = true -> least <= length a -> Matches r w ->
    Matches (Lazy class least :: r) (a ++ w)
| Matches_alt t texts r w :
    In t texts -> Matches r w -> Matches (Alt texts :: r) (t ++ w).

(** No two glyphs of the clean-up class stand side by side in [s];
    [after_glyph] tells whether a glyph comes right before [s]. *)
Fixpoint lone_glyphs (after_glyph : bool) (s : str) : bool :=
  match s with
  | [] => true
  | c :: s' =>
      if box_glyph c then negb after_glyph && lone_glyphs true s'
      else lone_glyphs false s'
  end.

(** ** Worked examples *)

Example block_scanner_nested :
  block_scanner (lit "a func main() { if x { y } } tail }")
  = lit "a func main() { if x { y } }".
Proof. vm_compute. reflexivity. Qed.

(** Scenario A of the spec: the 6-line comment goes, the 3-line comment
    stays. *)
Example noise_filter_comments :
  noise_filter
    (join_nl [lit "/*"; lit "a"; lit "b"; lit "c"; lit "d"; lit "*/";
              lit "/*"; lit "x"; lit "*/"; lit "func main() {"; lit "}"; []])
  = join_nl [lit "/*"; lit "x"; lit "*/"; lit "func main() {"; lit "}"; []].
Proof. vm_compute. reflexivity. Qed.

Example aggressive_simplify_run :
  aggressive_simplify
    (join_nl [lit "package main"; lit "/* a */"; lit "x"; lit "y"; lit "z */";
              lit "===================================="; lit "// Example 1";
              []; []; lit "func main() {"; lit "  if x {"; lit "  }";
              lit "}"; []; lit "// KEY TAKEAWAYS"; []])
  = join_nl [lit "package intermediate"; []; lit "func main() {";
             lit "  if x {"; lit "  }"; lit "}"].
Proof. vm_compute. reflexivity. Qed.

Example simplify_go_file_run :
  simplify_go_file ascii_digit
    (join_nl [lit "package main"; []; lit "/*"; lit "DEEP DIVE into closures";
              lit "*/"; lit "func closureExample1() {";
              lit "  fmt.Println(" ++ [34; 92]%N ++ lit "n=== Example 1: Basics ===" ++ [34]%N ++ lit ")";
              lit "}"; lit "// KEY TAKEAWAYS"; lit "// 1. ..."])
  = (join_nl [lit "package intermediate"; []; lit "func closureExample1() {";
              lit "  "; lit "}"], true).
Proof. vm_compute. reflexivity. Qed.

Example remove_sections_run :
  remove_sections_and_collapse
    (join_nl [lit "func a() {}"; []; []; []; lit "// KEY TAKEAWAYS";
              lit "// 1. ..."; lit "func b() {}"])
  = join_nl [lit "func a() {}"; []; lit "func b() {}"].
Proof. vm_compute. reflexivity. Qed.

(** ** Strings: basic facts *)

Lemma startswith_app s p : startswith (p ++ s) p = true.
Proof. induction p as [|a p IH]; simpl; [reflexivity|]. now rewrite N.eqb_refl. Qed.

Lemma startswith_inv s p : startswith s p = true -> exists post, s = p ++ post.
Proof.
  revert s. induction p as [|a p IH]; intros s H; simpl in *.
  - now exists s.
  - destruct s as [|b s]; [discriminate|].
    apply andb_true_iff in H as [Hab H]. apply N.eqb_eq in Hab. subst b.
    destruct (IH _ H) as [post ->]. now exists post.
Qed.

Lemma startswith_iff s p : startswith s p = true <-> exists post, s = p ++ post.
Proof.
  split; [apply startswith_inv|]. intros [post ->]. apply startswith_app.
Qed.

Lemma find_Some s sub n :
  find s sub = Some n ->
  exists pre post, s = pre ++ sub ++ post /\ length pre = n /\
    forall pre' post', s = pre' ++ sub ++ post' -> n <= length pre'.
Proof.
  revert n. induction s as [|c s IH]; intros n; simpl.
  - destruct (startswith [] sub) eqn:E; [|discriminate].
    intros [= <-]. apply startswith_inv in E as [post E].
    exists [], post. repeat split; auto. intros; lia.
  - destruct (startswith (c :: s) sub) eqn:E.
    + intros [= <-]. apply startswith_inv in E as [post E].
      exists [], post. repeat split; auto. intros; lia.
    + destruct (find s sub) as [m|] eqn:F; [|discriminate].
      simpl. intros [= <-].
      destruct (IH m eq_refl) as (pre & post & -> & Hlen & Hmin).
      exists (c :: pre), post. repeat split; simpl; auto.
      intros pre' post' H. destruct pre' as [|c' pre'].
      * simpl in H. rewrite H, startswith_app in E. discriminate.
      * simpl in H. injection H as _ H. apply Hmin in H. simpl. lia.
Qed.

Lemma find_None s sub : find s sub = None -> ~ occurs sub s.
Proof.
  induction s as [|c s IH]; simpl.
  - destruct (startswith [] sub) eqn:E; [discriminate|].
    intros _ (pre & post & H). destruct pre; simpl in H.
    + rewrite H, startswith_app in E. discriminate.
    + discriminate.
  - destruct (startswith (c :: s) sub) eqn:E; [discriminate|].
    destruct (find s sub) eqn:F; [discriminate|].
    intros _ (pre & post & H). destruct pre as [|c' pre]; simpl in H.
    + rewrite H, startswith_app in E. discriminate.
    + injection H as _ H. apply (IH eq_refl). now exists pre, post.
Qed.

Lemma find_occurs s sub : occurs sub s -> exists n, find s sub = Some n.
Proof.
  intros H. destruct (find s sub) eqn:F; [eauto|].
  now apply find_None in F.
Qed.

(** [find] returns the position of the leftmost occurrence. *)
Lemma find_first pre sub post :
  leftmost sub pre post ->
  find (pre ++ sub ++ post) sub = Some (length pre).
Proof.
  intros Hmin.
  destruct (find_occurs (pre ++ sub ++ post) sub) as [n F];
    [now exists pre, post|].
  rewrite F. f_equal.
  destruct (find_Some _ _ _ F) as (pre' & post' & E & Hlen & Hmin').
  specialize (Hmin _ _ E). specialize (Hmin' _ _ eq_refl). lia.
Qed.

Lemma contains_iff s sub : contains s sub = true <-> occurs sub s.
Proof.
  unfold contains. split.
  - destruct (find s sub) eqn:F; [|discriminate]. intros _.
    destruct (find_Some _ _ _ F) as (pre & post & E & _). now exists pre, post.
  - intros H. destruct (find_occurs _ _ H) as [n ->]. reflexivity.
Qed.

Lemma firstn_pre (pre tail : str) : firstn (length pre) (pre ++ tail) = pre.
Proof. now rewrite firstn_app, Nat.sub_diag, firstn_all, app_nil_r. Qed.

Lemma count_cons c x s :
  count c (x :: s) = (if N.eqb x c then 1 else 0) + count c s.
Proof.
  unfold count. simpl. destruct (N.eq_dec x c) as [->|Hne].
  - now rewrite N.eqb_refl.
  - apply N.eqb_neq in Hne. now rewrite Hne.
Qed.

Lemma count_app c s t : count c (s ++ t) = count c s + count c t.
Proof. unfold count. apply count_occ_app. Qed.

(** ** Block Scanner *)

(** [brace_count] is a Python integer that the loop keeps at or above 0; the
    statements carry it as a natural number.  [depth_arith] rewrites the
    integer expressions of one loop step accordingly. *)
Ltac depth_arith :=
  repeat match goal with
    | |- context [(Z.of_nat ?d + 1)%Z] =>
        replace (Z.of_nat d + 1)%Z with (Z.of_nat (S d)) by lia
    | |- context [(Z.of_nat (S ?d) =? 0)%Z] =>
        replace (Z.of_nat (S d) =? 0)%Z with false
          by (symmetry; apply Z.eqb_neq; lia)
    | |- context [(Z.of_nat (S ?d) - 1)%Z] =>
        replace (Z.of_nat (S d) - 1)%Z with (Z.of_nat d) by lia
    | H : context [(Z.of_nat ?d + 1)%Z] |- _ =>
        replace (Z.of_nat d + 1)%Z with (Z.of_nat (S d)) in H by lia
    | H : context [(Z.of_nat (S ?d) =? 0)%Z] |- _ =>
        replace (Z.of_nat (S d) =? 0)%Z with false in H
          by (symmetry; apply Z.eqb_neq; lia)
    | H : context [(Z.of_nat (S ?d) - 1)%Z] |- _ =>
        replace (Z.of_nat (S d) - 1)%Z with (Z.of_nat d) in H by lia
    end.

Lemma leftmost_find s sub n :
  find s sub = Some n ->
  leftmost sub (firstn n s) (skipn (n + length sub) s) /\
  s = firstn n s ++ sub ++ skipn (n + length sub) s.
Proof.
  intros F. destruct (find_Some _ _ _ F) as (pre & post & E & Hlen & Hmin).
  assert (E1 : firstn n s = pre).
  { subst s n. now rewrite firstn_app, Nat.sub_diag, firstn_all, app_nil_r. }
  assert (E2 : skipn (n + length sub) s = post).
  { subst s n. rewrite app_assoc, skipn_app, <- length_app, skipn_all.
    now rewrite Nat.sub_diag. }
  rewrite E1, E2. split; [|exact E].
  intros pre' post' H. rewrite <- E in H. rewrite Hlen. eauto.
Qed.

Lemma never_closesb_sound s : forall depth,
  never_closesb depth s = true -> never_closes depth s.
Proof.
  induction s as [|c s IH]; intros depth H n.
  - rewrite firstn_nil. cbn. lia.
  - destruct n as [|n]; [cbn; lia|].
    rewrite firstn_cons, !count_cons. simpl in H.
    destruct (N.eqb c open_brace) eqn:Eo.
    + apply N.eqb_eq in Eo. subst c. simpl.
      specialize (IH _ H n). lia.
    + destruct (N.eqb c close_brace) eqn:Ec.
      * destruct depth as [|d]; [discriminate|].
        specialize (IH _ H n). lia.
      * specialize (IH _ H n). lia.
Qed.

Lemma never_closes_tail depth depth' c s :
  never_closes depth (c :: s) ->
  depth + (if N.eqb c open_brace then 1 else 0)
    = depth' + (if N.eqb c close_brace then 1 else 0) ->
  never_closes depth' s.
Proof.
  intros H E n. specialize (H (S n)).
  rewrite firstn_cons, !count_cons in H. lia.
Qed.

Lemma never_closes_head depth c s :
  never_closes depth (c :: s) -> c = close_brace -> 0 < depth.
Proof.
  intros H ->. specialize (H 1). cbn [firstn] in H.
  rewrite !count_cons in H. cbn in H. lia.
Qed.

Lemma never_closesb_complete s : forall depth,
  never_closes depth s -> never_closesb depth s = true.
Proof.
  induction s as [|c s IH]; intros depth H; [reflexivity|].
  cbn [never_closesb]. destruct (N.eqb c open_brace) eqn:Eo.
  - apply IH. eapply never_closes_tail; [exact H|]. rewrite Eo.
    apply N.eqb_eq in Eo. subst c. cbn. lia.
  - destruct (N.eqb c close_brace) eqn:Ec.
    + pose proof (never_closes_head _ _ _ H (proj1 (N.eqb_eq _ _) Ec)) as Hpos.
      destruct depth as [|d]; [lia|].
      apply IH. eapply never_closes_tail; [exact H|]. rewrite Eo, Ec. lia.
    + apply IH. eapply never_closes_tail; [exact H|]. rewrite Eo, Ec. lia.
Qed.

(** The counting reading of "no closing brace is met at depth 0" and the
    step-by-step one (depth up on an opening brace, down on a closing brace
    met at depth above 0) agree. *)
Lemma never_closes_iff depth s :
  never_closes depth s <-> never_closesb depth s = true.
Proof. split; [apply never_closesb_complete|apply never_closesb_sound]. Qed.

(** The loop stops at the first closing brace met at depth 0. *)
Lemma scan_braces_closes body rest : forall pos depth,
  never_closes depth body ->
  count close_brace body = depth + count open_brace body ->
  scan_braces (body ++ close_brace :: rest) pos (Z.of_nat depth)
  = Some (pos + length body).
Proof.
  induction body as [|c body IH]; intros pos depth Hn Hc.
  - cbn in Hc. assert (depth = 0) by lia. subst depth.
    cbn. f_equal. lia.
  - rewrite !count_cons in Hc. cbn [app scan_braces length].
    destruct (N.eqb c open_brace) eqn:Eo.
    + depth_arith. rewrite IH; [f_equal; lia| |].
      * eapply never_closes_tail; [exact Hn|]. rewrite Eo.
        apply N.eqb_eq in Eo. subst c. cbn. lia.
      * apply N.eqb_eq in Eo. subst c. cbn in Hc. lia.
    + destruct (N.eqb c close_brace) eqn:Ec.
      * pose proof (never_closes_head _ _ _ Hn (proj1 (N.eqb_eq _ _) Ec)) as Hpos.
        destruct depth as [|d]; [lia|]. depth_arith.
        rewrite IH; [f_equal; lia| |].
        -- eapply never_closes_tail; [exact Hn|]. rewrite Eo, Ec. lia.
        -- lia.
      * rewrite IH; [f_equal; lia| |].
        -- eapply never_closes_tail; [exact Hn|]. rewrite Eo, Ec. lia.
        -- lia.
Qed.

(** The loop runs off the end when no closing brace is met at depth 0. *)
Lemma scan_braces_open tail : forall pos depth,
  never_closes depth tail ->
  scan_braces tail pos (Z.of_nat depth) = None.
Proof.
  induction tail as [|c tail IH]; intros pos depth Hn; [reflexivity|].
  cbn [scan_braces].
  destruct (N.eqb c open_brace) eqn:Eo.
  - depth_arith.
    apply IH. eapply never_closes_tail; [exact Hn|]. rewrite Eo.
    apply N.eqb_eq in Eo. subst c. cbn. lia.
  - destruct (N.eqb c close_brace) eqn:Ec.
    + pose proof (never_closes_head _ _ _ Hn (proj1 (N.eqb_eq _ _) Ec)) as Hpos.
      destruct depth as [|d]; [lia|]. depth_arith.
      apply IH. eapply never_closes_tail; [exact Hn|]. rewrite Eo, Ec. lia.
    + apply IH. eapply never_closes_tail; [exact Hn|]. rewrite Eo, Ec. lia.
Qed.

(** What a successful scan has read. *)
Lemma scan_braces_Some rest : forall pos depth pos',
  scan_braces rest pos (Z.of_nat depth) = Some pos' ->
  exists body rest',
    rest = body ++ close_brace :: rest' /\ pos' = pos + length body /\
    never_closes depth body /\
    count close_brace body = depth + count open_brace body.
Proof.
  induction rest as [|c rest IH]; intros pos depth pos' H; [discriminate|].
  cbn [scan_braces] in H.
  destruct (N.eqb c open_brace) eqn:Eo.
  - depth_arith.
    destruct (IH _ _ _ H) as (body & rest' & -> & -> & Hn & Hc).
    exists (c :: body), rest'. rewrite !count_cons, Eo.
    apply N.eqb_eq in Eo. subst c. cbn.
    repeat split; try lia.
    intros [|n]; [cbn; lia|]. rewrite firstn_cons, !count_cons. cbn.
    specialize (Hn n). lia.
  - destruct (N.eqb c close_brace) eqn:Ec.
    + destruct depth as [|d].
      * cbn in H. injection H as <-. apply N.eqb_eq in Ec. subst c.
        exists [], rest. cbn. repeat split; try lia.
        intros n. rewrite firstn_nil. cbn. lia.
      * depth_arith.
        destruct (IH _ _ _ H) as (body & rest' & -> & -> & Hn & Hc).
        exists (c :: body), rest'. rewrite !count_cons, Eo, Ec. cbn.
        repeat split; try lia.
        intros [|n]; [cbn; lia|]. rewrite firstn_cons, !count_cons, Eo, Ec.
        specialize (Hn n). lia.
    + destruct (IH _ _ _ H) as (body & rest' & -> & -> & Hn & Hc).
      exists (c :: body), rest'. rewrite !count_cons, Eo, Ec. cbn.
      repeat split; try lia.
      intros [|n]; [cbn; lia|]. rewrite firstn_cons, !count_cons, Eo, Ec.
      specialize (Hn n). lia.
Qed.

(** What a scan that runs off the end has read. *)
Lemma scan_braces_None rest : forall pos depth,
  scan_braces rest pos (Z.of_nat depth) = None -> never_closes depth rest.
Proof.
  induction rest as [|c rest IH]; intros pos depth H.
  - intros n. rewrite firstn_nil. cbn. lia.
  - cbn [scan_braces] in H. apply never_closesb_sound. cbn [never_closesb].
    destruct (N.eqb c open_brace).
    + depth_arith. apply never_closesb_complete. eauto.
    + destruct (N.eqb c close_brace).
      * destruct depth as [|d]; [discriminate|]. depth_arith.
        apply never_closesb_complete. eauto.
      * apply never_closesb_complete. eauto.
Qed.

Lemma skipn_header pre tail :
  skipn (length pre + length entry_header) (pre ++ entry_header ++ tail) = tail.
Proof.
  rewrite app_assoc, <- length_app, skipn_app, skipn_all, Nat.sub_diag.
  reflexivity.
Qed.

Lemma firstn_through pre body rest :
  firstn (length pre + length entry_header + length body + 1)
         (pre ++ entry_header ++ body ++ close_brace :: rest)
  = pre ++ entry_header ++ body ++ [close_brace].
Proof.
  replace (pre ++ entry_header ++ body ++ close_brace :: rest)
    with ((pre ++ entry_header ++ body ++ [close_brace]) ++ rest)
    by (now rewrite <- !app_assoc).
  replace (length pre + length entry_header + length body + 1)
    with (length (pre ++ entry_header ++ body ++ [close_brace]))
    by (rewrite !length_app; simpl; lia).
  now rewrite firstn_app, Nat.sub_diag, firstn_all, app_nil_r.
Qed.

Lemma header_braces :
  count open_brace entry_header = 1 /\ count close_brace entry_header = 0.
Proof. split; reflexivity. Qed.

(** A successful scan keeps the text up to the closing brace it stopped at. *)
Lemma block_scanner_found content start pos' :
  find content entry_header = Some start ->
  scan_braces (skipn (start + length entry_header) content)
              (start + length entry_header) 0 = Some pos' ->
  exists pre body rest,
    content = pre ++ entry_header ++ body ++ close_brace :: rest /\
    length pre = start /\
    never_closes 0 body /\ brace_balanced body /\
    block_scanner content = pre ++ entry_header ++ body ++ [close_brace].
Proof.
  intros F S0. unfold block_scanner. rewrite F. cbv zeta. rewrite S0.
  destruct (find_Some _ _ _ F) as (pre & post & -> & <- & _).
  rewrite skipn_header in S0.
  change 0%Z with (Z.of_nat 0) in S0.
  destruct (scan_braces_Some _ _ _ _ S0) as (body & rest & -> & -> & Hn & Hc).
  exists pre, body, rest. repeat split; auto.
  - unfold brace_balanced. lia.
  - apply firstn_through.
Qed.

(** Every document that holds the entry header is of one of two shapes:
    after the leftmost header a closing brace is met at depth 0 (C1), or none
    is (C2). *)
Lemma header_cases content :
  occurs entry_header content ->
  (exists pre body rest,
      content = pre ++ entry_header ++ body ++ close_brace :: rest /\
      leftmost entry_header pre (body ++ close_brace :: rest) /\
      never_closes 0 body /\ brace_balanced body) \/
  (exists pre tail,
      content = pre ++ entry_header ++ tail /\
      leftmost entry_header pre tail /\ never_closes 0 tail).
Proof.
  intros Ho. destruct (find_occurs _ _ Ho) as [start F].
  destruct (leftmost_find _ _ _ F) as [Hl E].
  destruct (find_Some _ _ _ F) as (pre & tail & E' & Hlen & _).
  assert (E1 : firstn start content = pre) by (subst; apply firstn_pre).
  assert (E2 : skipn (start + length entry_header) content = tail)
    by (subst; apply skipn_header).
  rewrite E1, E2 in Hl.
  destruct (scan_braces tail (start + length entry_header) (Z.of_nat 0))
    as [pos'|] eqn:S0.
  - left. destruct (scan_braces_Some _ _ _ _ S0) as (body & rest & -> & _ & Hn & Hc).
    exists pre, body, rest. repeat split; auto. unfold brace_balanced. lia.
  - right. exists pre, tail. repeat split; auto.
    now apply scan_braces_None in S0.
Qed.

(** C1. When the entry header [func main() {] occurs in the document and the
    text after its leftmost occurrence is [body] followed by a closing brace,
    where no closing brace of [body] is met at depth 0 and [body] is back at
    depth 0 at its end (so that this closing brace is the first one met at
    depth 0), the Block Scanner returns the document cut right after that
    closing brace: the closing braces of inner blocks, all inside [body], do
    not end the scan, and [rest] is discarded. *)
Theorem block_scanner_truncates pre body rest :
  leftmost entry_header pre (body ++ close_brace :: rest) ->
  never_closes 0 body ->
  brace_balanced body ->
  block_scanner (pre ++ entry_header ++ body ++ close_brace :: rest)
  = pre ++ entry_header ++ body ++ [close_brace].
Proof.
  intros Hl Hn Hb. unfold block_scanner.
  rewrite (find_first _ _ _ Hl). cbv zeta. rewrite skipn_header.
  change 0%Z with (Z.of_nat 0).
  rewrite scan_braces_closes by (auto; unfold brace_balanced in Hb; lia).
  apply firstn_through.
Qed.

Lemma block_scanner_truncates_witness :
  block_scanner (lit "// a } func main() { if x { y } else { z } } func g() { }")
  = lit "// a } func main() { if x { y } else { z } }".
Proof.
  apply (block_scanner_truncates (lit "// a } ") (lit " if x { y } else { z } ")
           (lit " func g() { }")).
  - apply (leftmost_find (lit "// a } func main() { if x { y } else { z } } func g() { }")
             entry_header 7). vm_compute. reflexivity.
  - apply never_closesb_sound. vm_compute. reflexivity.
  - vm_compute. reflexivity.
Defined.

(** C2. When the entry header occurs in the document and, from the end of
    its leftmost occurrence to the end of the document, no closing brace is
    met at depth 0, the Block Scanner returns the document as it is. *)
Theorem block_scanner_unterminated pre tail :
  leftmost entry_header pre tail ->
  never_closes 0 tail ->
  block_scanner (pre ++ entry_header ++ tail) = pre ++ entry_header ++ tail.
Proof.
  intros Hl Hn. unfold block_scanner.
  rewrite (find_first _ _ _ Hl). cbv zeta. rewrite skipn_header.
  change 0%Z with (Z.of_nat 0).
  now rewrite scan_braces_open.
Qed.

Lemma block_scanner_unterminated_witness :
  block_scanner (lit "} func main() { for { x() } ") = lit "} func main() { for { x() } ".
Proof.
  apply (block_scanner_unterminated (lit "} ") (lit " for { x() } ")).
  - apply (leftmost_find (lit "} func main() { for { x() } ") entry_header 2).
    vm_compute. reflexivity.
  - apply never_closesb_sound. vm_compute. reflexivity.
Defined.

(** C3. On a document in which the entry header [func main() {] does not
    occur the Block Scanner is the identity; hence, whenever such a document
    is what the Noise Filter (after the relabelling of step 1) hands to the
    Scanner, the pipeline's output is that text with only the blank-run
    collapse and the glyph clean-up applied. *)
Theorem block_scanner_absent content :
  ~ occurs entry_header content ->
  block_scanner content = content /\
  forall doc, noise_filter (relabel doc) = content ->
    aggressive_simplify doc = decorative_cleanup (collapse_blank content).
Proof.
  intros Hno.
  assert (E : block_scanner content = content).
  { unfold block_scanner. destruct (find content entry_header) eqn:F; [|reflexivity].
    exfalso. apply Hno. destruct (find_Some _ _ _ F) as (pre & post & -> & _).
    now exists pre, post. }
  split; [exact E|].
  intros doc <-. unfold aggressive_simplify. cbv zeta. now rewrite E.
Qed.

Lemma block_scanner_absent_witness :
  block_scanner (lit "package lib; func helper() { }; func main () { }")
  = lit "package lib; func helper() { }; func main () { }".
Proof.
  apply block_scanner_absent.
  apply find_None. vm_compute. reflexivity.
Defined.

(** C9, as the source has it.  After a successful match, the block from the
    start of the entry header through the closing brace found holds as many
    opening as closing braces; the text before the header is kept as it is,
    so the whole output is balanced exactly when that text is. *)
Theorem block_scanner_block_balanced content start pos' :
  find content entry_header = Some start ->
  scan_braces (skipn (start + length entry_header) content)
              (start + length entry_header) 0 = Some pos' ->
  firstn start (block_scanner content) = firstn start content /\
  brace_balanced (skipn start (block_scanner content)) /\
  (brace_balanced (block_scanner content) <-> brace_balanced (firstn start content)).
Proof.
  intros F S0.
  destruct (block_scanner_found _ _ _ F S0) as (pre & body & rest & -> & <- & Hn & Hb & ->).
  destruct header_braces as [Ho Hc]. unfold brace_balanced in *.
  assert (F1 : forall x, firstn (length pre) (pre ++ x) = pre)
    by (intros x; apply firstn_pre).
  assert (S1 : forall x, skipn (length pre) (pre ++ x) = x).
  { intros x. now rewrite skipn_app, Nat.sub_diag, skipn_all. }
  rewrite !F1, S1, !count_app, Ho, Hc.
  replace (count open_brace [close_brace]) with 0 by reflexivity.
  replace (count close_brace [close_brace]) with 1 by reflexivity.
  repeat split; try lia.
Qed.

Lemma block_scanner_block_balanced_witness :
  brace_balanced (skipn 2 (block_scanner (lit "} func main() { if x { } } "))).
Proof.
  apply (block_scanner_block_balanced (lit "} func main() { if x { } } ") 2 25);
    vm_compute; reflexivity.
Defined.

(** C9 as stated fails: a closing brace before the entry header stays in the
    output, which then closes more braces than it opens. *)
Lemma block_scanner_output_unbalanced :
  ~ (forall content start pos',
        find content entry_header = Some start ->
        scan_braces (skipn (start + length entry_header) content)
                    (start + length entry_header) 0 = Some pos' ->
        brace_balanced (block_scanner content)).
Proof.
  intros H.
  specialize (H (lit "}func main() {}") 1 14 eq_refl eq_refl).
  vm_compute in H. discriminate.
Qed.

(** ** Noise Filter: the line loop *)

Lemma take_comment_shorter comment_lines rest :
  length (snd (take_comment comment_lines rest)) <= length rest.
Proof.
  revert comment_lines.
  induction rest as [|l rest IH]; intros comment_lines; simpl; [lia|].
  destruct (closes_comment l); simpl; [lia|].
  specialize (IH (comment_lines ++ [l])). lia.
Qed.

Lemma filter_lines_comment line rest :
  opens_comment line = true ->
  filter_lines (line :: rest)
  = keep_short (fst (take_comment [line] rest))
    ++ filter_lines (snd (take_comment [line] rest)).
Proof. intros H. simp filter_lines. rewrite H. reflexivity. Qed.

Lemma filter_lines_plain line rest :
  opens_comment line = false ->
  filter_lines (line :: rest)
  = if decorative line || example_header line then filter_lines rest
    else line :: filter_lines rest.
Proof.
  intros H. simp filter_lines. rewrite H. simp filter_lines.
  destruct (decorative line); simp filter_lines; [reflexivity|].
  destruct (example_header line); simp filter_lines; reflexivity.
Qed.

Lemma take_comment_closed mid : forall comment_lines closer after,
  Forall (fun l => closes_comment l = false) mid ->
  closes_comment closer = true ->
  take_comment comment_lines (mid ++ closer :: after)
  = (comment_lines ++ mid ++ [closer], after).
Proof.
  induction mid as [|l mid IH]; intros comment_lines closer after Hm Hc; cbn.
  - now rewrite Hc.
  - inversion Hm as [|? ? Hl Hm']; subst. rewrite Hl.
    rewrite IH by assumption. now rewrite <- app_assoc.
Qed.

Lemma take_comment_open mid : forall comment_lines,
  Forall (fun l => closes_comment l = false) mid ->
  take_comment comment_lines mid = (comment_lines ++ mid, []).
Proof.
  induction mid as [|l mid IH]; intros comment_lines Hm; cbn.
  - now rewrite app_nil_r.
  - inversion Hm as [|? ? Hl Hm']; subst. rewrite Hl.
    rewrite IH by assumption. now rewrite <- app_assoc.
Qed.

(** C4. When the line loop meets a line whose trimmed text starts with the
    opening marker, the block is that line, the lines [mid] after it that do
    not hold the closing marker, and the first later line [closer] that holds
    it; without such a line the block runs to the end of the document.  The
    block is emitted whole when it has fewer than 4 lines and dropped
    otherwise ([keep_short]), and the loop goes on after it. *)
Theorem comment_block_rule opening mid :
  opens_comment opening = true ->
  Forall (fun l => closes_comment l = false) mid ->
  (forall closer after,
      closes_comment closer = true ->
      filter_lines (opening :: mid ++ closer :: after)
      = (if length (opening :: mid ++ [closer]) <? 4
         then opening :: mid ++ [closer] else [])
        ++ filter_lines after) /\
  filter_lines (opening :: mid)
  = (if length (opening :: mid) <? 4 then opening :: mid else []).
Proof.
  intros Ho Hm. split.
  - intros closer after Hc.
    rewrite (filter_lines_comment _ _ Ho), take_comment_closed by assumption.
    reflexivity.
  - rewrite (filter_lines_comment _ _ Ho), take_comment_open by assumption.
    cbn [fst snd]. simp filter_lines. now rewrite app_nil_r.
Qed.

Lemma comment_block_rule_witness :
  filter_lines [lit "  /*"; lit "a"; lit "b"; lit "c */"; lit "x"; lit "/* d"; lit "*/"]
  = [lit "x"; lit "/* d"; lit "*/"].
Proof.
  assert (H : opens_comment (lit "  /*") = true) by reflexivity.
  assert (Hm : Forall (fun l => closes_comment l = false) [lit "a"; lit "b"])
    by (repeat constructor).
  change (filter_lines (lit "  /*" :: [lit "a"; lit "b"] ++ lit "c */"
                          :: [lit "x"; lit "/* d"; lit "*/"])
          = [lit "x"; lit "/* d"; lit "*/"]).
  rewrite (proj1 (comment_block_rule (lit "  /*") _ H Hm) (lit "c */") _ eq_refl).
  vm_compute. reflexivity.
Defined.

(** C10. The closing marker is looked for on the lines after the opening
    line only: a line that opens a comment and also holds the closing marker
    starts a block that runs through the next later line holding the closing
    marker (or to the end of the document), and the lines in between are
    dropped with it as soon as the block has 4 lines. *)
Theorem one_line_comment_absorbs opening mid :
  opens_comment opening = true ->
  closes_comment opening = true ->
  Forall (fun l => closes_comment l = false) mid ->
  (forall closer after,
      closes_comment closer = true ->
      filter_lines (opening :: mid ++ closer :: after)
      = keep_short (opening :: mid ++ [closer]) ++ filter_lines after) /\
  filter_lines (opening :: mid) = keep_short (opening :: mid) /\
  (2 <= length mid ->
   forall closer after,
     closes_comment closer = true ->
     filter_lines (opening :: mid ++ closer :: after) = filter_lines after) /\
  (3 <= length mid -> filter_lines (opening :: mid) = []).
Proof.
  intros Ho _ Hm.
  assert (H1 : forall closer after,
             closes_comment closer = true ->
             filter_lines (opening :: mid ++ closer :: after)
             = keep_short (opening :: mid ++ [closer]) ++ filter_lines after).
  { intros closer after Hc.
    now rewrite (filter_lines_comment _ _ Ho), take_comment_closed. }
  assert (H2 : filter_lines (opening :: mid) = keep_short (opening :: mid)).
  { rewrite (filter_lines_comment _ _ Ho), take_comment_open by assumption.
    cbn [fst snd]. simp filter_lines. now rewrite app_nil_r. }
  split; [exact H1|]. split; [exact H2|].
  assert (Hlong : forall block, 4 <= length block -> keep_short block = []).
  { intros block Hb. unfold keep_short.
    destruct (length block <? 4) eqn:E; [|reflexivity].
    apply Nat.ltb_lt in E. lia. }
  split.
  - intros Hlen closer after Hc. rewrite H1 by assumption.
    rewrite Hlong; [reflexivity|]. cbn [length]. rewrite length_app. cbn. lia.
  - intros Hlen. rewrite H2. apply Hlong. cbn [length]. lia.
Qed.

Lemma one_line_comment_absorbs_witness :
  filter_lines [lit "/* note */"; lit "x := 1"; lit "y := 2"; lit "/* end */"; lit "z := 3"]
  = filter_lines [lit "z := 3"].
Proof.
  assert (Ho : opens_comment (lit "/* note */") = true) by reflexivity.
  assert (Hc : closes_comment (lit "/* note */") = true) by reflexivity.
  assert (Hm : Forall (fun l => closes_comment l = false) [lit "x := 1"; lit "y := 2"])
    by (repeat constructor).
  destruct (one_line_comment_absorbs (lit "/* note */") _ Ho Hc Hm) as (_ & _ & H).
  destruct H as [H _].
  exact (H (Nat.le_refl 2) (lit "/* end */") [lit "z := 3"] eq_refl).
Defined.

Lemma run_length_split p s :
  s = firstn (run_length p s) s ++ skipn (run_length p s) s /\
  length (firstn (run_length p s) s) = run_length p s /\
  forallb p (firstn (run_length p s) s) = true.
Proof.
  induction s as [|c s IH]; cbn; [auto|].
  destruct (p c) eqn:E; cbn; [|auto].
  destruct IH as (E1 & E2 & E3). rewrite E, E3, E2. rewrite <- E1. auto.
Qed.

Lemma run_length_app p run tail :
  forallb p run = true -> length run <= run_length p (run ++ tail).
Proof.
  induction run as [|c run IH]; cbn; [lia|].
  intros H. apply andb_true_iff in H as [Hc H]. rewrite Hc.
  specialize (IH H). lia.
Qed.

Lemma decorative_iff line : decorative line = true <-> begins_decorative line.
Proof.
  unfold decorative, begins_decorative. rewrite Nat.leb_le. split.
  - intros H. destruct (run_length_split separator line) as (E1 & E2 & E3).
    exists (firstn (run_length separator line) line),
           (skipn (run_length separator line) line).
    rewrite E2. auto.
  - intros (run & tail & -> & Hlen & Hall).
    pose proof (run_length_app separator run tail Hall). lia.
Qed.

(** C5, as the source has it.  A line that reaches the decorative-line test
    (one that does not open a comment block) is dropped by it exactly when
    it starts with at least 30 characters of the separator alphabet
    (slash, equals sign, white space, underscore, hyphen), whatever follows
    them; any other line goes on to the next rule.  So a line of 40 equals
    signs is dropped, and so is a line of 30 or more separators followed by
    other text. *)
Theorem decorative_rule line rest :
  opens_comment line = false ->
  (decorative line = true <-> begins_decorative line) /\
  (begins_decorative line -> filter_lines (line :: rest) = filter_lines rest) /\
  (~ begins_decorative line ->
   filter_lines (line :: rest)
   = if example_header line then filter_lines rest else line :: filter_lines rest) /\
  (line = repeat 61%N 40 -> filter_lines (line :: rest) = filter_lines rest) /\
  (forall tail, line = repeat 61%N 30 ++ tail ->
                filter_lines (line :: rest) = filter_lines rest).
Proof.
  intros Ho. rewrite (filter_lines_plain _ _ Ho).
  split; [apply decorative_iff|]. split; [|split; [|split]].
  - intros H. apply decorative_iff in H. now rewrite H.
  - intros H. destruct (decorative line) eqn:D; [|reflexivity].
    apply decorative_iff in D. contradiction.
  - intros ->. reflexivity.
  - intros tail ->.
    assert (D : decorative (repeat 61%N 30 ++ tail) = true).
    { apply decorative_iff. exists (repeat 61%N 30), tail. repeat split.
      vm_compute. lia. }
    now rewrite D.
Qed.

Lemma decorative_rule_witness :
  filter_lines [repeat 61%N 40; lit "x"] = filter_lines [lit "x"].
Proof.
  refine (proj1 (proj2 (proj2 (proj2
            (decorative_rule (repeat 61%N 40) [lit "x"] _)))) eq_refl).
  vm_compute. reflexivity.
Defined.

(** C5 as stated fails: a line of 30 equals signs followed by other text is
    not a run of separators from end to end, and is dropped all the same. *)
Lemma separators_then_text_dropped :
  ~ (forall line rest,
        opens_comment line = false ->
        example_header line = false ->
        (filter_lines (line :: rest) = filter_lines rest <-> entirely_decorative line)).
Proof.
  intros H.
  specialize (H (lit "============================== end") [] eq_refl eq_refl).
  destruct H as [H _].
  assert (E : entirely_decorative (lit "============================== end"))
    by (apply H; vm_compute; reflexivity).
  destruct E as [_ E]. vm_compute in E. discriminate.
Qed.

(** ** Section skip *)

Lemma skip_sections_app pre : forall b rest,
  exists b', skip_sections b (pre ++ rest)
             = skip_sections b pre ++ skip_sections b' rest.
Proof.
  induction pre as [|l pre IH]; intros b rest.
  - exists b. reflexivity.
  - cbn [app skip_sections].
    destruct (marker l); [|destruct (b && declares_func l)].
    + destruct (IH true rest) as [b' ->]. now exists b'.
    + destruct (IH false rest) as [b' ->]. now exists b'.
    + destruct (IH b rest) as [b' E]. exists b'.
      destruct b; rewrite E; reflexivity.
Qed.

Lemma skip_sections_skipping mid : forall rest,
  Forall (fun l => marker l = true \/ declares_func l = false) mid ->
  skip_sections true (mid ++ rest) = skip_sections true rest.
Proof.
  induction mid as [|l mid IH]; intros rest Hm; [reflexivity|].
  inversion Hm as [|? ? Hl Hm']; subst. cbn [app skip_sections].
  destruct (marker l) eqn:M; [now apply IH|].
  destruct Hl as [Hl|Hl]; [discriminate|]. rewrite Hl. cbn.
  now apply IH.
Qed.

(** C6, as the source has it.  From a line holding a banned marker phrase
    on, no line is emitted up to the next line that starts (trimmed) with
    [func ] and holds no banned marker phrase itself; that line is emitted
    and emission goes on from it.  The lines before the marker line are
    treated as they are without it. *)
Theorem skip_sections_region pre m mid c post :
  marker m = true ->
  Forall (fun l => marker l = true \/ declares_func l = false) mid ->
  marker c = false ->
  declares_func c = true ->
  skip_sections false (pre ++ m :: mid ++ c :: post)
  = skip_sections false pre ++ c :: skip_sections false post.
Proof.
  intros Hm Hmid Hc Hf.
  destruct (skip_sections_app pre false (m :: mid ++ c :: post)) as [b' ->].
  f_equal. cbn [skip_sections]. rewrite Hm.
  rewrite skip_sections_skipping by assumption.
  cbn [skip_sections]. now rewrite Hc, Hf.
Qed.

Lemma skip_sections_region_witness :
  skip_sections false
    [lit "package x"; lit "// KEY TAKEAWAYS"; lit "// 1. func values";
     lit "// COMPREHENSIVE GUIDE"; lit "  func next() {"; lit "}"]
  = [lit "package x"; lit "  func next() {"; lit "}"].
Proof.
  apply (skip_sections_region [lit "package x"] (lit "// KEY TAKEAWAYS")
           [lit "// 1. func values"; lit "// COMPREHENSIVE GUIDE"]
           (lit "  func next() {") [lit "}"]).
  - vm_compute. reflexivity.
  - constructor; [right; reflexivity|].
    constructor; [left; reflexivity|]. constructor.
  - vm_compute. reflexivity.
  - vm_compute. reflexivity.
Defined.

(** C6 as stated fails: a line that starts with [func ] and also holds a
    marker phrase does not end the skipped region. *)
Lemma skip_sections_marker_wins :
  ~ (forall m mid c post,
        marker m = true ->
        Forall (fun l => declares_func l = false) mid ->
        declares_func c = true ->
        skip_sections false (m :: mid ++ c :: post)
        = c :: skip_sections false post).
Proof.
  intros H.
  specialize (H (lit "// KEY TAKEAWAYS") [] (lit "func KEY TAKEAWAYS() {") [lit "}"]
                eq_refl (Forall_nil _) eq_refl).
  vm_compute in H. discriminate.
Qed.

(** ** Blank-run collapse *)

Lemma flush_newlines_min pending :
  flush_newlines pending = repeat newline (Nat.min pending 2).
Proof.
  unfold flush_newlines. destruct (3 <=? pending) eqn:E.
  - apply Nat.leb_le in E. now replace (Nat.min pending 2) with 2 by lia.
  - apply Nat.leb_gt in E. now replace (Nat.min pending 2) with pending by lia.
Qed.

Lemma collapse_from_app a : forall pending s,
  a <> [] -> last a newline <> newline ->
  collapse_from pending (a ++ s) = collapse_from pending a ++ collapse_from 0 s.
Proof.
  induction a as [|c a IH]; intros pending s Hne Hlast; [contradiction|].
  destruct (list_eq_dec N.eq_dec a []) as [->|Ha].
  - cbn in Hlast. cbn. apply N.eqb_neq in Hlast. rewrite Hlast.
    cbn. now rewrite <- app_assoc.
  - assert (Hlast' : last a newline <> newline).
    { destruct a; [contradiction|exact Hlast]. }
    cbn [app collapse_from].
    destruct (N.eqb c newline).
    + now rewrite IH.
    + rewrite IH by assumption. now rewrite <- app_assoc.
Qed.

Lemma collapse_from_run k : forall pending s,
  collapse_from pending (repeat newline k ++ s) = collapse_from (pending + k) s.
Proof.
  induction k as [|k IH]; intros pending s; cbn.
  - now rewrite Nat.add_0_r.
  - rewrite IH. f_equal. lia.
Qed.

Lemma collapse_from_text pending s :
  (forall s', s <> newline :: s') ->
  collapse_from pending s = flush_newlines pending ++ collapse_from 0 s.
Proof.
  intros H. destruct s as [|c s]; cbn.
  - now rewrite app_nil_r.
  - destruct (N.eqb c newline) eqn:E; [|reflexivity].
    apply N.eqb_eq in E. subst c. now destruct (H s).
Qed.

Lemma short_runs_flush pending c s :
  c <> newline ->
  short_runs 0 (flush_newlines pending ++ c :: s) = short_runs 0 s.
Proof.
  intros Hc. apply N.eqb_neq in Hc. unfold flush_newlines.
  destruct (3 <=? pending) eqn:E.
  - cbn. now rewrite Hc.
  - apply Nat.leb_gt in E.
    destruct pending as [|[|[|pending]]]; [| | |lia]; cbn; now rewrite Hc.
Qed.

Lemma short_runs_collapse s : forall pending,
  short_runs 0 (collapse_from pending s) = true.
Proof.
  induction s as [|c s IH]; intros pending; cbn [collapse_from].
  - unfold flush_newlines. destruct (3 <=? pending) eqn:E; [reflexivity|].
    apply Nat.leb_gt in E.
    destruct pending as [|[|[|pending]]]; [| | |lia]; reflexivity.
  - destruct (N.eqb c newline) eqn:E; [apply IH|].
    rewrite short_runs_flush by (now apply N.eqb_neq). apply IH.
Qed.

Lemma short_runs_sound s : forall run,
  short_runs run s = true -> ~ occurs [newline; newline; newline] s.
Proof.
  induction s as [|c s IH]; intros run H (pre & post & E).
  - destruct pre; discriminate.
  - destruct pre as [|c' pre].
    + cbn in E. injection E as -> ->. cbn in H.
      destruct run as [|[|run]]; cbn in H; discriminate.
    + cbn in E. injection E as -> E. cbn [short_runs] in H.
      destruct (N.eqb c' newline).
      * apply andb_true_iff in H as [_ H]. apply (IH _ H). now exists pre, post.
      * apply (IH _ H). now exists pre, post.
Qed.

Lemma short_runs_complete s : forall run,
  run <= 2 ->
  ~ occurs [newline; newline; newline] (repeat newline run ++ s) ->
  short_runs run s = true.
Proof.
  induction s as [|c s IH]; intros run Hr H; [reflexivity|].
  cbn [short_runs]. destruct (N.eqb c newline) eqn:E.
  - apply N.eqb_eq in E. subst c.
    assert (Hr' : S run <= 2).
    { destruct run as [|[|[|run]]]; try lia.
      exfalso. apply H. exists [], s. reflexivity. }
    apply andb_true_iff. split; [apply Nat.ltb_lt; lia|].
    apply IH; [exact Hr'|].
    replace (repeat newline (S run) ++ s) with (repeat newline run ++ newline :: s);
      [exact H|].
    clear. induction run; cbn; [reflexivity|]. now rewrite IHrun.
  - apply (IH 0); [lia|]. intros (pre & post & E'). apply H.
    exists (repeat newline run ++ c :: pre), post.
    cbn in E'. rewrite E'. now rewrite <- app_assoc.
Qed.

(** A text without three newlines in a row is left as it is. *)
Lemma collapse_from_short s : forall pending,
  pending <= 2 -> short_runs pending s = true ->
  collapse_from pending s = repeat newline pending ++ s.
Proof.
  induction s as [|c s IH]; intros pending Hp H; cbn [collapse_from].
  - rewrite flush_newlines_min, app_nil_r. f_equal. lia.
  - cbn [short_runs] in H. destruct (N.eqb c newline) eqn:E.
    + apply andb_true_iff in H as [Hlt H]. apply Nat.ltb_lt in Hlt.
      apply N.eqb_eq in E. subst c.
      rewrite IH by (auto; lia).
      clear. induction pending; cbn; [reflexivity|]. now rewrite <- IHpending.
    + rewrite flush_newlines_min, (IH 0) by (auto; lia).
      now replace (Nat.min pending 2) with pending by lia.
Qed.

Lemma collapse_blank_fixed s :
  ~ occurs [newline; newline; newline] s -> collapse_blank s = s.
Proof.
  intros H. unfold collapse_blank.
  rewrite collapse_from_short; [reflexivity|lia|].
  apply short_runs_complete; [lia|exact H].
Qed.

Lemma collapse_blank_idempotent s :
  collapse_blank (collapse_blank s) = collapse_blank s.
Proof.
  apply collapse_blank_fixed. apply (short_runs_sound _ 0).
  apply short_runs_collapse.
Qed.

(** C7, as the source has it.  The collapse works on newline characters: a
    maximal run of [k] newlines (after a text [a] that does not end with a
    newline and before a text [b] that does not start with one) is replaced
    by [min k 2] newlines, that is, left alone when [k <= 2] and cut to two
    when [k >= 3]; the rest of the text is treated independently.  Hence the
    output of the collapse never holds three newlines in a row, and a text
    without three newlines in a row is unchanged. *)
Theorem collapse_blank_runs a k b :
  (a = [] \/ last a newline <> newline) ->
  (forall b', b <> newline :: b') ->
  collapse_blank (a ++ repeat newline k ++ b)
  = collapse_blank a ++ repeat newline (Nat.min k 2) ++ collapse_blank b
  /\ (forall doc, ~ occurs [newline; newline; newline] (collapse_blank doc))
  /\ (forall doc, ~ occurs [newline; newline; newline] doc -> collapse_blank doc = doc).
Proof.
  intros Ha Hb. split; [|split].
  - unfold collapse_blank. rewrite <- flush_newlines_min.
    destruct a as [|c a].
    + cbn [app]. rewrite collapse_from_run. cbn.
      now apply collapse_from_text.
    + destruct Ha as [Ha|Ha]; [discriminate|].
      rewrite collapse_from_app by (auto; discriminate).
      f_equal. rewrite collapse_from_run. cbn.
      now apply collapse_from_text.
  - intros doc. apply (short_runs_sound _ 0). apply short_runs_collapse.
  - apply collapse_blank_fixed.
Qed.

Lemma collapse_blank_runs_witness :
  collapse_blank (lit "a" ++ repeat newline 5 ++ lit "b")
  = collapse_blank (lit "a") ++ repeat newline 2 ++ collapse_blank (lit "b").
Proof.
  apply (collapse_blank_runs (lit "a") 5 (lit "b")).
  - right. vm_compute. discriminate.
  - intros b'. vm_compute. discriminate.
Defined.

(** C7 as stated fails: two blank lines between two lines of text are a run
    shorter than 3, and the collapse leaves only one of them. *)
Lemma two_blank_lines_collapsed :
  ~ (forall doc, split_nl (collapse_blank doc) = spec_collapse_lines (split_nl doc)).
Proof.
  intros H. specialize (H (lit "a" ++ [newline; newline; newline] ++ lit "b")).
  vm_compute in H. discriminate.
Qed.

(** ** Lines of a text *)

Lemma split_nl_cons c s :
  split_nl (c :: s)
  = if N.eqb c newline then [] :: split_nl s
    else (c :: hd [] (split_nl s)) :: tl (split_nl s).
Proof. cbn. destruct (N.eqb c newline); [reflexivity|]. now destruct (split_nl s). Qed.

Lemma split_nl_nonempty s : split_nl s <> [].
Proof.
  destruct s as [|c s]; [discriminate|]. rewrite split_nl_cons.
  destruct (N.eqb c newline); discriminate.
Qed.

Lemma join_nl_cons l ls :
  ls <> [] -> join_nl (l :: ls) = l ++ newline :: join_nl ls.
Proof. destruct ls; [contradiction|reflexivity]. Qed.

Lemma join_split s : join_nl (split_nl s) = s.
Proof.
  induction s as [|c s IH]; [reflexivity|]. rewrite split_nl_cons.
  pose proof (split_nl_nonempty s) as Hne.
  destruct (N.eqb c newline) eqn:E.
  - apply N.eqb_eq in E. subst c. rewrite join_nl_cons by assumption.
    now rewrite IH.
  - destruct (split_nl s) as [|h t]; [contradiction|]. cbn [hd tl].
    destruct t as [|h' t].
    + cbn in *. now rewrite IH.
    + rewrite join_nl_cons in * by discriminate. cbn [app]. now rewrite IH.
Qed.

Lemma split_nl_lines s : Forall (fun l => ~ In newline l) (split_nl s).
Proof.
  induction s as [|c s IH]; [repeat constructor; auto|].
  rewrite split_nl_cons. destruct (N.eqb c newline) eqn:E.
  - constructor; auto.
  - pose proof (split_nl_nonempty s) as Hne.
    destruct (split_nl s) as [|h t]; [contradiction|]. cbn [hd tl].
    inversion IH as [|? ? Hh Ht]; subst. constructor; [|assumption].
    intros [->|Hin]; [now rewrite N.eqb_refl in E|contradiction].
Qed.

Lemma split_nl_line l : ~ In newline l -> split_nl l = [l].
Proof.
  induction l as [|c l IH]; intros H; [reflexivity|].
  rewrite split_nl_cons.
  destruct (N.eqb c newline) eqn:E.
  - apply N.eqb_eq in E. subst c. exfalso. apply H. now left.
  - rewrite IH by (intros Hin; apply H; now right). reflexivity.
Qed.

Lemma split_nl_line_app l s :
  ~ In newline l -> split_nl (l ++ newline :: s) = l :: split_nl s.
Proof.
  induction l as [|c l IH]; intros H.
  - cbn [app]. rewrite split_nl_cons. now rewrite N.eqb_refl.
  - cbn [app]. rewrite split_nl_cons.
    destruct (N.eqb c newline) eqn:E.
    + apply N.eqb_eq in E. subst c. exfalso. apply H. now left.
    + rewrite IH by (intros Hin; apply H; now right). reflexivity.
Qed.

Lemma split_join ls :
  ls <> [] -> Forall (fun l => ~ In newline l) ls -> split_nl (join_nl ls) = ls.
Proof.
  induction ls as [|l ls IH]; intros Hne H; [contradiction|].
  inversion H as [|? ? Hl Hls]; subst.
  destruct ls as [|l' ls].
  - cbn. now apply split_nl_line.
  - rewrite join_nl_cons by discriminate.
    rewrite split_nl_line_app by assumption.
    rewrite IH by (auto; discriminate). reflexivity.
Qed.

(** The lines of [a ++ b]: those of [a], the last one continued by the first
    line of [b], then the other lines of [b]. *)
Lemma split_nl_app a b :
  exists L l r R,
    split_nl a = L ++ [l] /\ split_nl b = r :: R /\
    split_nl (a ++ b) = L ++ (l ++ r) :: R.
Proof.
  induction a as [|c a IH].
  - pose proof (split_nl_nonempty b) as Hne.
    destruct (split_nl b) as [|r R] eqn:E; [contradiction|].
    exists [], [], r, R. cbn [app]. rewrite E. auto.
  - destruct IH as (L & l & r & R & Ea & Eb & Eab).
    cbn [app]. rewrite !split_nl_cons, Ea, Eab.
    destruct (N.eqb c newline).
    + exists ([] :: L), l, r, R. auto.
    + destruct L as [|h L]; cbn [app hd tl].
      * exists [], (c :: l), r, R. auto.
      * exists ((c :: h) :: L), l, r, R. auto.
Qed.

(** ** Line lists the line loop leaves alone *)

Lemma take_comment_acc rest : forall comment_lines,
  take_comment comment_lines rest
  = (comment_lines ++ fst (take_comment [] rest), snd (take_comment [] rest)).
Proof.
  induction rest as [|l rest IH]; intros comment_lines; cbn.
  - now rewrite app_nil_r.
  - destruct (closes_comment l); [reflexivity|].
    rewrite (IH (comment_lines ++ [l])), (IH [l]). cbn [fst snd].
    now rewrite <- app_assoc.
Qed.

Lemma take_comment_whole rest :
  fst (take_comment [] rest) ++ snd (take_comment [] rest) = rest.
Proof.
  induction rest as [|l rest IH]; cbn; [reflexivity|].
  destruct (closes_comment l); [reflexivity|].
  rewrite take_comment_acc. cbn [fst snd app]. now rewrite IH.
Qed.

Lemma settled_block rest : forall n,
  n < 4 -> settled (Some n) rest = true ->
  n + length (fst (take_comment [] rest)) < 4 /\
  settled None (snd (take_comment [] rest)) = true.
Proof.
  induction rest as [|l rest IH]; intros n Hn H.
  - cbn. split; [lia|reflexivity].
  - cbn [settled] in H. apply andb_true_iff in H as [Hlt H].
    apply Nat.ltb_lt in Hlt. cbn [take_comment].
    destruct (closes_comment l).
    + cbn. split; [lia|exact H].
    + rewrite take_comment_acc. cbn [fst snd app length].
      destruct (IH (S n) Hlt H) as [H1 H2]. split; [lia|exact H2].
Qed.

Lemma keep_short_keeps block : length block < 4 -> keep_short block = block.
Proof.
  intros H. unfold keep_short. apply Nat.ltb_lt in H. now rewrite H.
Qed.

(** A settled list is a fixed point of the line loop. *)
Lemma filter_lines_settled lines :
  settled None lines = true -> filter_lines lines = lines.
Proof.
  remember (length lines) as n eqn:Hn. revert lines Hn.
  induction n as [n IH] using lt_wf_ind. intros lines Hn H.
  destruct lines as [|l rest]; [now simp filter_lines|].
  cbn [settled] in H. destruct (opens_comment l) eqn:Ho.
  - rewrite (filter_lines_comment _ _ Ho), take_comment_acc. cbn [fst snd].
    destruct (settled_block rest 1 ltac:(lia) H) as [Hlen Hafter].
    rewrite keep_short_keeps by (rewrite length_app; cbn; lia).
    rewrite (IH (length (snd (take_comment [] rest)))); auto.
    + rewrite <- app_assoc. cbn [app]. now rewrite take_comment_whole.
    + pose proof (take_comment_shorter [] rest). subst n. cbn. lia.
  - rewrite (filter_lines_plain _ _ Ho).
    apply andb_true_iff in H as [H Hrest]. apply andb_true_iff in H as [Hd He].
    apply negb_true_iff in Hd, He. rewrite Hd, He. cbn.
    f_equal. apply (IH (length rest)); auto. subst n. cbn. lia.
Qed.

Lemma settled_kept_block rest : forall n X,
  n + length (fst (take_comment [] rest)) < 4 ->
  settled None X = true ->
  (snd (take_comment [] rest) = [] -> X = []) ->
  settled (Some n) (fst (take_comment [] rest) ++ X) = true.
Proof.
  induction rest as [|l rest IH]; intros n X Hlen HX Hend.
  - cbn in *. now rewrite Hend.
  - cbn [take_comment] in *. destruct (closes_comment l) eqn:Hc.
    + cbn [fst snd app length] in *. cbn [settled]. rewrite Hc.
      apply andb_true_iff. split; [|exact HX].
      apply Nat.ltb_lt. lia.
    + rewrite take_comment_acc in *. cbn [fst snd app length] in *.
      cbn [settled]. rewrite Hc. apply andb_true_iff. split.
      * apply Nat.ltb_lt. lia.
      * apply IH; auto. lia.
Qed.

(** The line loop always produces a settled list. *)
Lemma settled_filter_lines lines : settled None (filter_lines lines) = true.
Proof.
  remember (length lines) as n eqn:Hn. revert lines Hn.
  induction n as [n IH] using lt_wf_ind. intros lines Hn.
  destruct lines as [|l rest]; [now simp filter_lines|].
  destruct (opens_comment l) eqn:Ho.
  - rewrite (filter_lines_comment _ _ Ho), take_comment_acc. cbn [fst snd].
    assert (Hafter : settled None (filter_lines (snd (take_comment [] rest))) = true).
    { apply (IH (length (snd (take_comment [] rest)))); auto.
      pose proof (take_comment_shorter [] rest). subst n. cbn. lia. }
    unfold keep_short.
    destruct (length ([l] ++ fst (take_comment [] rest)) <? 4) eqn:E;
      [|exact Hafter].
    apply Nat.ltb_lt in E. cbn [app length] in E.
    cbn [app settled]. rewrite Ho.
    apply settled_kept_block; [lia|exact Hafter|].
    intros ->. now simp filter_lines.
  - rewrite (filter_lines_plain _ _ Ho).
    assert (Hrest : settled None (filter_lines rest) = true).
    { apply (IH (length rest)); auto. subst n. cbn. lia. }
    destruct (decorative l) eqn:Hd; [exact Hrest|].
    destruct (example_header l) eqn:He; [exact Hrest|].
    cbn [orb settled]. rewrite Ho, Hd, He. exact Hrest.
Qed.

Lemma filter_lines_idempotent lines :
  filter_lines (filter_lines lines) = filter_lines lines.
Proof. apply filter_lines_settled, settled_filter_lines. Qed.

(** The lines produced are lines of the input. *)
Lemma filter_lines_Forall (P : str -> Prop) lines :
  Forall P lines -> Forall P (filter_lines lines).
Proof.
  remember (length lines) as n eqn:Hn. revert lines Hn.
  induction n as [n IH] using lt_wf_ind. intros lines Hn H.
  destruct lines as [|l rest]; [now simp filter_lines|].
  inversion H as [|? ? Hl Hrest]; subst.
  destruct (opens_comment l) eqn:Ho.
  - rewrite (filter_lines_comment _ _ Ho), take_comment_acc. cbn [fst snd].
    rewrite <- (take_comment_whole rest) in Hrest.
    apply Forall_app in Hrest as [H1 H2].
    apply Forall_app. split.
    + unfold keep_short. destruct (_ <? 4); [|constructor].
      constructor; assumption.
    + pose proof (take_comment_shorter [] rest).
      apply (IH (length (snd (take_comment [] rest))));
        [cbn; lia|reflexivity|assumption].
  - rewrite (filter_lines_plain _ _ Ho).
    assert (Hr : Forall P (filter_lines rest)).
    { apply (IH (length rest)); [cbn; lia|reflexivity|assumption]. }
    destruct (decorative l || example_header l); auto.
Qed.



(** ** The collapse, seen on lines *)

Lemma drops_blank_refl ls : drops_blank ls ls.
Proof. induction ls; constructor; auto. Qed.








(** ** The truncation, seen on lines *)




Lemma contains_prefix a b sub : contains a sub = true -> contains (a ++ b) sub = true.
Proof.
  rewrite !contains_iff. intros (pre & post & ->).
  exists pre, (post ++ b). now rewrite <- !app_assoc.
Qed.

Lemma contains_suffix a b sub : contains b sub = true -> contains (a ++ b) sub = true.
Proof.
  rewrite !contains_iff. intros (pre & post & ->).
  exists (a ++ pre), post. now rewrite <- !app_assoc.
Qed.








Lemma example_header_unmixed a b :
  unmixed (a ++ b) = true ->
  example_header a && contains (a ++ b) (lit "func ") = false.
Proof.
  unfold example_header, unmixed. intros H.
  destruct (contains a (lit "Example")) eqn:E; [|reflexivity].
  rewrite (contains_prefix a b _ E) in H. cbn [andb] in H.
  apply negb_true_iff in H. rewrite H. apply andb_false_r.
Qed.



(** ** Relabelling *)

Lemma relabel_line_unlabelled line : unlabelled (relabel_line line).
Proof.
  unfold unlabelled, relabel_line.
  destruct (startswith line (lit "package main")) eqn:E; [reflexivity|exact E].
Qed.

Lemma relabel_line_fixed line : unlabelled line -> relabel_line line = line.
Proof. unfold unlabelled, relabel_line. now intros ->. Qed.

Lemma relabel_fixed content :
  Forall unlabelled (split_nl content) -> relabel content = content.
Proof.
  intros H. unfold relabel.
  replace (List.map relabel_line (split_nl content)) with (split_nl content).
  - apply join_split.
  - induction H as [|l ls Hl Hls IH]; [reflexivity|].
    cbn [List.map]. now rewrite <- IH, relabel_line_fixed.
Qed.

Lemma contains_skip c s a sub :
  N.eqb a c = false -> contains (c :: s) (a :: sub) = contains s (a :: sub).
Proof.
  intros H. unfold contains. cbn [find startswith]. rewrite H. cbn [andb].
  now destruct (find s (a :: sub)).
Qed.

Lemma contains_skipn n s sub : contains (skipn n s) sub = true -> contains s sub = true.
Proof.
  intros H. rewrite <- (firstn_skipn n s). now apply contains_suffix.
Qed.

Lemma relabel_line_contains line a sub :
  existsb (N.eqb a) (lit "package intermediate") = false ->
  contains (relabel_line line) (a :: sub) = true ->
  contains line (a :: sub) = true.
Proof.
  intros Ha. unfold relabel_line.
  destruct (startswith line (lit "package main")); [|auto].
  set (z := skipn _ line).
  assert (E : forall A, existsb (N.eqb a) A = false ->
                        contains (A ++ z) (a :: sub) = contains z (a :: sub)).
  { induction A as [|c A IH]; intros HA; [reflexivity|].
    cbn [existsb] in HA. apply orb_false_iff in HA as [Hc HA].
    cbn [app]. rewrite contains_skip by exact Hc. auto. }
  rewrite E by exact Ha. apply contains_skipn.
Qed.

Lemma relabel_line_unmixed line : unmixed line = true -> unmixed (relabel_line line) = true.
Proof.
  unfold unmixed. intros H. apply negb_true_iff in H. apply negb_true_iff.
  apply andb_false_iff in H. apply andb_false_iff.
  destruct H as [H|H]; [left|right].
  - destruct (contains (relabel_line line) (lit "Example")) eqn:E; [|reflexivity].
    apply (relabel_line_contains line 69%N (lit "xample") eq_refl) in E.
    change (69%N :: lit "xample") with (lit "Example") in E. congruence.
  - destruct (contains (relabel_line line) (lit "func ")) eqn:E; [|reflexivity].
    apply (relabel_line_contains line 102%N (lit "unc ") eq_refl) in E.
    change (102%N :: lit "unc ") with (lit "func ") in E. congruence.
Qed.

Lemma relabel_line_newline line : ~ In newline line -> ~ In newline (relabel_line line).
Proof.
  unfold relabel_line. intros H.
  destruct (startswith line (lit "package main")); [|exact H].
  intros Hin. apply in_app_or in Hin as [Hin|Hin].
  - revert Hin. clear. cbn. intuition discriminate.
  - apply H. rewrite <- (firstn_skipn (length (lit "package main")) line).
    apply in_or_app. now right.
Qed.

Lemma relabel_lines content :
  split_nl (relabel content) = List.map relabel_line (split_nl content).
Proof.
  unfold relabel. apply split_join.
  - pose proof (split_nl_nonempty content). now destruct (split_nl content).
  - pose proof (split_nl_lines content) as H.
    induction H as [|l ls Hl Hls IH]; constructor; auto.
    now apply relabel_line_newline.
Qed.

(** ** Glyph clean-up *)

Lemma glyph_free_iff s : glyph_free s = true <-> Forall plain s.
Proof.
  unfold glyph_free, plain. rewrite forallb_forall, Forall_forall.
  split; intros H c Hc; specialize (H c Hc).
  - now apply negb_true_iff in H.
  - now apply negb_true_iff.
Qed.

Lemma cleanup_plain s : Forall plain s -> decorative_cleanup s = s.
Proof.
  unfold decorative_cleanup. induction 1 as [|c s Hc Hs IH]; [reflexivity|].
  cbn [cleanup_from]. rewrite Hc. cbn. now rewrite IH.
Qed.

(** A property of characters that holds of the newline carries over from a
    text to its lines and back, and to the collapsed text. *)
Section Preserved.

Variable P : char -> Prop.
Hypothesis P_newline : P newline.

Lemma split_nl_Forall s : Forall P s -> Forall (Forall P) (split_nl s).
Proof.
  induction 1 as [|c s Hc Hs IH]; [repeat constructor|].
  rewrite split_nl_cons. destruct (N.eqb c newline).
  - constructor; auto.
  - pose proof (split_nl_nonempty s).
    destruct (split_nl s) as [|h t]; [contradiction|]. cbn [hd tl].
    inversion IH; subst. constructor; auto.
Qed.

Lemma join_nl_Forall ls : Forall (Forall P) ls -> Forall P (join_nl ls).
Proof.
  induction 1 as [|l ls Hl Hls IH]; [constructor|].
  destruct ls as [|l' ls]; [exact Hl|].
  rewrite join_nl_cons by discriminate.
  apply Forall_app. split; [exact Hl|]. constructor; auto.
Qed.

Lemma collapse_from_Forall s : forall pending,
  Forall P s -> Forall P (collapse_from pending s).
Proof.
  intros pending H. revert pending.
  assert (Hf : forall pending, Forall P (flush_newlines pending)).
  { intros pending. rewrite flush_newlines_min.
    apply Forall_forall. intros c Hc. apply repeat_spec in Hc. now subst c. }
  induction H as [|c s Hc Hs IH]; intros pending; cbn [collapse_from]; [apply Hf|].
  destruct (N.eqb c newline); [apply IH|].
  apply Forall_app. split; [apply Hf|]. constructor; auto.
Qed.

End Preserved.

Lemma block_scanner_prefix content :
  exists n, block_scanner content = firstn n content.
Proof.
  unfold block_scanner. destruct (find content entry_header) as [start|].
  - cbv zeta. destruct (scan_braces _ _ _) as [pos'|].
    + now exists (pos' + 1).
    + exists (length content). now rewrite firstn_all.
  - exists (length content). now rewrite firstn_all.
Qed.

Lemma relabel_line_plain line : Forall plain line -> Forall plain (relabel_line line).
Proof.
  unfold relabel_line. intros H.
  destruct (startswith line (lit "package main")); [|exact H].
  apply Forall_app. split.
  - apply glyph_free_iff. reflexivity.
  - rewrite <- (firstn_skipn (length (lit "package main")) line) in H.
    now apply Forall_app in H.
Qed.

Lemma Forall_firstn_plain n (s : str) : Forall plain s -> Forall plain (firstn n s).
Proof.
  intros H. rewrite <- (firstn_skipn n s) in H. now apply Forall_app in H.
Qed.

(** ** Glyphs that stand alone *)

(** Step 5 takes away runs of two glyphs or more; the steps before it bring
    no two glyphs together that were apart. *)
Lemma cleanup_from_lone s : forall pending,
  (pending = [] \/ exists g, pending = [g]) ->
  lone_glyphs (negb (length pending =? 0)) s = true ->
  cleanup_from pending s = pending ++ s.
Proof.
  induction s as [|c s IH]; intros pending Hp H; cbn [cleanup_from].
  - rewrite app_nil_r. destruct Hp as [->|[g ->]]; reflexivity.
  - cbn [lone_glyphs] in H. destruct (box_glyph c) eqn:Ec.
    + apply andb_true_iff in H as [Hg H]. apply negb_true_iff in Hg.
      apply negb_false_iff in Hg. apply Nat.eqb_eq in Hg.
      destruct pending; [|discriminate]. cbn [app].
      apply (IH [c]); [right; eauto|exact H].
    + rewrite (IH []); [|now left|exact H]. cbn [app].
      destruct Hp as [->|[g ->]]; reflexivity.
Qed.


Lemma glyph_free_lone s : glyph_free s = true -> forall b, lone_glyphs b s = true.
Proof.
  unfold glyph_free. induction s as [|c s IH]; intros H b; [reflexivity|].
  cbn [forallb] in H. apply andb_true_iff in H as [Hc H].
  apply negb_true_iff in Hc. cbn [lone_glyphs]. rewrite Hc. now apply IH.
Qed.












(** ** The Block Scanner after the collapse *)









Lemma find_cons c s sub :
  find (c :: s) sub
  = if startswith (c :: s) sub then Some 0 else option_map S (find s sub).
Proof. reflexivity. Qed.







Lemma startswith_agree a t t' p :
  length p <= length a -> startswith (a ++ t) p = startswith (a ++ t') p.
Proof.
  revert a. induction p as [|x p IH]; intros a H; [reflexivity|].
  destruct a as [|c a]; [cbn in H; lia|].
  cbn [app startswith]. rewrite (IH a); [reflexivity|]. cbn in H. lia.
Qed.

Lemma find_header_tail pre sub tail tail' :
  find (pre ++ sub ++ tail) sub = Some (length pre) ->
  find (pre ++ sub ++ tail') sub = Some (length pre).
Proof.
  induction pre as [|c pre IH]; intros H.
  - cbn [app length]. destruct (sub ++ tail') eqn:E.
    + cbn. destruct sub; [reflexivity|discriminate].
    + rewrite <- E. rewrite E at 1. rewrite find_cons, <- E, startswith_app.
      reflexivity.
  - cbn [app length] in *. rewrite find_cons in *.
    replace (c :: pre ++ sub ++ tail') with ((c :: pre ++ sub) ++ tail')
      by (cbn; now rewrite <- app_assoc).
    replace (c :: pre ++ sub ++ tail) with ((c :: pre ++ sub) ++ tail) in H
      by (cbn; now rewrite <- app_assoc).
    rewrite (startswith_agree _ tail' tail) by (cbn; rewrite length_app; lia).
    destruct (startswith ((c :: pre ++ sub) ++ tail) sub); [discriminate|].
    destruct (find (pre ++ sub ++ tail) sub) as [n|] eqn:F; [|discriminate].
    cbn in H. injection H as ->. now rewrite IH.
Qed.



(** The pipeline maps a text with these five properties to itself. *)
Lemma aggressive_simplify_fixed y :
  Forall unlabelled (split_nl y) ->
  settled None (split_nl y) = true ->
  block_scanner y = y ->
  collapse_blank y = y ->
  Forall plain y ->
  aggressive_simplify y = y.
Proof.
  intros H1 H2 H3 H4 H5. unfold aggressive_simplify. cbv zeta.
  rewrite (relabel_fixed _ H1). unfold noise_filter.
  rewrite (filter_lines_settled _ H2), join_split, H3, H4.
  now apply cleanup_plain.
Qed.

Lemma block_scanner_cut content :
  block_scanner content = content \/
  exists t0 rest,
    content = t0 ++ close_brace :: rest /\
    block_scanner content = t0 ++ [close_brace].
Proof.
  destruct (find content entry_header) as [start|] eqn:F.
  - destruct (scan_braces (skipn (start + length entry_header) content)
                          (start + length entry_header) 0) as [pos'|] eqn:S0.
    + right. destruct (block_scanner_found _ _ _ F S0)
        as (pre & body & rest & -> & _ & _ & _ & ->).
      exists (pre ++ entry_header ++ body), rest.
      now rewrite <- !app_assoc.
    + left. unfold block_scanner. rewrite F. cbv zeta. now rewrite S0.
  - left. unfold block_scanner. now rewrite F.
Qed.

Lemma split_nl_cut t0 rest :
  exists L l r0 R,
    split_nl (t0 ++ close_brace :: rest) = L ++ (l ++ close_brace :: r0) :: R /\
    split_nl (t0 ++ [close_brace]) = L ++ [l ++ [close_brace]].
Proof.
  destruct (split_nl_app t0 (close_brace :: rest)) as (L & l & r & R & E1 & E2 & E3).
  destruct (split_nl_app t0 [close_brace]) as (L' & l' & r' & R' & E1' & E2' & E3').
  rewrite E1 in E1'. apply app_inj_tail in E1' as [<- <-].
  rewrite split_nl_cons in E2.
  change (N.eqb close_brace newline) with false in E2. cbv iota in E2.
  injection E2 as <- <-. cbn in E2'. injection E2' as <- <-.
  exists L, l, (hd [] (split_nl rest)), (tl (split_nl rest)). auto.
Qed.

(** The two lines that [cut_exposes_example] looks at. *)
Lemma cut_lines_found t0 rest L l r0 R :
  block_scanner (t0 ++ close_brace :: rest) = t0 ++ [close_brace] ->
  split_nl (t0 ++ close_brace :: rest) = L ++ (l ++ close_brace :: r0) :: R ->
  split_nl (t0 ++ [close_brace]) = L ++ [l ++ [close_brace]] ->
  kept_line (t0 ++ close_brace :: rest) = l ++ [close_brace] /\
  cut_line (t0 ++ close_brace :: rest) = l ++ close_brace :: r0.
Proof.
  intros Eb E1 E2. unfold kept_line, cut_line. rewrite Eb, E1, E2. split.
  - apply last_last.
  - rewrite length_app. cbn [length].
    replace (length L + 1 - 1) with (length L) by lia.
    apply nth_middle.
Qed.

Lemma cut_lines_uncut content :
  block_scanner content = content ->
  kept_line content = cut_line content.
Proof.
  intros E. unfold kept_line, cut_line. rewrite E.
  destruct (split_nl content) as [|l ls] using rev_ind; [reflexivity|].
  rewrite last_last, length_app. cbn [length].
  replace (length ls + 1 - 1) with (length ls) by lia.
  now rewrite nth_middle.
Qed.

(** Step 3 exposes no [Example] line when it does not cut. *)
Lemma uncut_not_exposed content :
  block_scanner content = content -> cut_exposes_example content = false.
Proof.
  intros E. unfold cut_exposes_example. rewrite (cut_lines_uncut _ E).
  unfold example_header.
  destruct (contains (cut_line content) (lit "func "));
    cbn [negb]; now rewrite !andb_false_r.
Qed.

(** Nor when the line in which it cuts does not hold both [Example] and
    [func ]. *)
Lemma unmixed_not_exposed content :
  Forall (fun l => unmixed l = true) (split_nl content) ->
  cut_exposes_example content = false.
Proof.
  intros H.
  destruct (block_scanner_cut content) as [E|(t0 & rest & -> & Eb)];
    [now apply uncut_not_exposed|].
  destruct (split_nl_cut t0 rest) as (L & l & r0 & R & E1 & E2).
  destruct (cut_lines_found _ _ _ _ _ _ Eb E1 E2) as [Ek Ec].
  unfold cut_exposes_example. rewrite Ek, Ec.
  replace (l ++ close_brace :: r0) with ((l ++ [close_brace]) ++ r0)
    by (now rewrite <- app_assoc).
  apply example_header_unmixed.
  rewrite <- app_assoc. cbn [app].
  rewrite E1 in H. apply Forall_app in H as [_ H]. now inversion H.
Qed.


Lemma join_lines ls :
  Forall (fun l => ~ In newline l) ls ->
  split_nl (join_nl ls) = ls \/ (ls = [] /\ split_nl (join_nl ls) = [[]]).
Proof.
  intros H. destruct ls as [|l ls]; [right; auto|].
  left. apply split_join; [discriminate|exact H].
Qed.


(** A document in which no line holds both [Example] and [func ] has no
    such line after steps 1 and 2 either, so that step 3 exposes none. *)
Lemma unmixed_document content :
  example_lines_unmixed content = true ->
  cut_exposes_example (noise_filter (relabel content)) = false.
Proof.
  intros Hx. apply unmixed_not_exposed.
  unfold noise_filter. rewrite relabel_lines.
  set (ls := List.map relabel_line (split_nl content)).
  assert (Hm : Forall (fun l => unmixed l = true) ls).
  { apply Forall_forall. intros l Hl. apply in_map_iff in Hl as (l0 & <- & Hl).
    apply relabel_line_unmixed.
    unfold example_lines_unmixed in Hx. rewrite forallb_forall in Hx. auto. }
  assert (Hn : Forall (fun l => ~ In newline l) ls).
  { unfold ls. rewrite <- relabel_lines. apply split_nl_lines. }
  destruct (join_lines (filter_lines ls)) as [->|[-> ->]].
  - now apply filter_lines_Forall.
  - now apply filter_lines_Forall.
  - repeat constructor.
Qed.

Lemma plain_pipeline content :
  Forall plain content ->
  Forall plain (collapse_blank (block_scanner (noise_filter (relabel content)))).
Proof.
  intros H. apply collapse_from_Forall; [reflexivity|].
  destruct (block_scanner_prefix (noise_filter (relabel content))) as [n ->].
  apply Forall_firstn_plain. unfold noise_filter.
  apply join_nl_Forall; [reflexivity|]. apply filter_lines_Forall.
  rewrite relabel_lines. apply split_nl_Forall in H.
  apply Forall_forall. intros l Hl. apply in_map_iff in Hl as (l0 & <- & Hl).
  apply relabel_line_plain. rewrite Forall_forall in H. auto.
Qed.






(** That document is of the second kind: the cut exposes its second line. *)
Example exposed_example_line :
  let doc := join_nl [lit "func main() {"; lit "Example } func "] in
  lone_glyphs false doc = true /\
  kept_line (noise_filter (relabel doc)) = lit "Example }" /\
  cut_line (noise_filter (relabel doc)) = lit "Example } func " /\
  cut_exposes_example (noise_filter (relabel doc)) = true.
Proof. repeat split; vm_compute; reflexivity. Qed.

(** A second way in which C8 fails: the glyph clean-up of step 5 runs after
    the blank-run collapse of step 4 and can leave three newlines in a row,
    which the second run collapses. *)
Example aggressive_simplify_glyph_line :
  let doc := lit "a" ++ [newline; newline; 9552%N; 9552%N; newline; newline] ++ lit "b" in
  aggressive_simplify doc = lit "a" ++ repeat newline 4 ++ lit "b" /\
  aggressive_simplify (aggressive_simplify doc) = lit "a" ++ repeat newline 2 ++ lit "b".
Proof. split; vm_compute; reflexivity. Qed.

(** * Further properties of the two scripts *)

(** ** Subsequences *)

Lemma subseq_refl {A} (l : list A) : subseq l l.
Proof. induction l; constructor; auto. Qed.

Lemma subseq_nil_l {A} (l : list A) : subseq [] l.
Proof. induction l; constructor; auto. Qed.

Lemma subseq_trans {A} (l1 l2 l3 : list A) :
  subseq l1 l2 -> subseq l2 l3 -> subseq l1 l3.
Proof.
  intros H12 H23. revert l1 H12.
  induction H23 as [|x l2 l3 H IH|x l2 l3 H IH]; intros l1 H12.
  - exact H12.
  - inversion H12; subst.
    + apply subseq_keep. auto.
    + apply subseq_skip. auto.
  - apply subseq_skip. auto.
Qed.

Lemma subseq_app {A} (a a' b b' : list A) :
  subseq a' a -> subseq b' b -> subseq (a' ++ b') (a ++ b).
Proof.
  induction 1 as [|x a' a H IH|x a' a H IH]; intros Hb; cbn [app].
  - exact Hb.
  - apply subseq_keep. auto.
  - apply subseq_skip. auto.
Qed.

Lemma subseq_skipn {A} n (l : list A) : subseq (skipn n l) l.
Proof.
  revert l. induction n as [|n IH]; intros l; [apply subseq_refl|].
  destruct l as [|x l]; [constructor|]. cbn [skipn]. apply subseq_skip. apply IH.
Qed.

Lemma subseq_firstn {A} n (l : list A) : subseq (firstn n l) l.
Proof.
  revert l. induction n as [|n IH]; intros l; [apply subseq_nil_l|].
  destruct l as [|x l]; [constructor|]. cbn [firstn]. apply subseq_keep. apply IH.
Qed.

Lemma subseq_length {A} (l' l : list A) : subseq l' l -> length l' <= length l.
Proof. induction 1; cbn [length]; lia. Qed.

Lemma subseq_Forall {A} (P : A -> Prop) (l' l : list A) :
  subseq l' l -> Forall P l -> Forall P l'.
Proof.
  induction 1 as [|x l' l H IH|x l' l H IH]; intros HP; auto.
  - inversion HP; subst. constructor; auto.
  - inversion HP; subst. auto.
Qed.

(** ** The line loop of step 2 *)

Lemma filter_lines_sub lines : subseq (filter_lines lines) lines.
Proof.
  remember (length lines) as n eqn:Hn. revert lines Hn.
  induction n as [n IH] using lt_wf_ind. intros lines Hn.
  destruct lines as [|l rest]; [simp filter_lines; constructor|].
  destruct (opens_comment l) eqn:Ho.
  - rewrite (filter_lines_comment _ _ Ho), take_comment_acc. cbn [fst snd].
    replace (l :: rest)
      with (([l] ++ fst (take_comment [] rest)) ++ snd (take_comment [] rest))
      by (rewrite <- app_assoc; cbn [app]; now rewrite take_comment_whole).
    apply subseq_app.
    + unfold keep_short. destruct (_ <? 4); [apply subseq_refl|apply subseq_nil_l].
    + pose proof (take_comment_shorter [] rest).
      apply (IH (length (snd (take_comment [] rest)))); [subst n; cbn; lia|reflexivity].
  - rewrite (filter_lines_plain _ _ Ho).
    assert (Hr : subseq (filter_lines rest) rest)
      by (apply (IH (length rest)); [subst n; cbn; lia|reflexivity]).
    destruct (decorative l || example_header l); constructor; exact Hr.
Qed.

(** X1.  The line loop only leaves lines out: what it emits is a subsequence of
    its input, hence no longer than it; and the text it is joined into has
    no more lines than the text it came from. *)
Theorem filter_lines_subseq lines :
  subseq (filter_lines lines) lines /\
  length (filter_lines lines) <= length lines /\
  forall content,
    length (split_nl (noise_filter content)) <= length (split_nl content).
Proof.
  split; [apply filter_lines_sub|]. split.
  - apply subseq_length, filter_lines_sub.
  - intros content. unfold noise_filter.
    pose proof (filter_lines_sub (split_nl content)) as Hs.
    destruct (join_lines (filter_lines (split_nl content))) as [->|[E ->]].
    + exact (subseq_Forall _ _ _ Hs (split_nl_lines content)).
    + now apply subseq_length.
    + pose proof (split_nl_nonempty content).
      destruct (split_nl content); [contradiction|cbn; lia].
Qed.

(** X3.  Where no line opens a block comment, the line loop is a filter: it drops
    the lines that start with 30 separators and those that hold [Example]
    without [func ], and keeps every other line. *)
Theorem filter_lines_comment_free lines :
  Forall (fun l => opens_comment l = false) lines ->
  filter_lines lines
  = List.filter (fun l => negb (decorative l || example_header l)) lines.
Proof.
  induction 1 as [|l rest Hl Hrest IH]; [now simp filter_lines|].
  rewrite (filter_lines_plain _ _ Hl). cbn [List.filter].
  destruct (decorative l || example_header l); cbn [negb]; now rewrite IH.
Qed.

Lemma filter_lines_comment_free_witness :
  filter_lines [lit "package x"; repeat 45%N 30; lit "// Example 1"; lit "func fooExample() {"]
  = [lit "package x"; lit "func fooExample() {"].
Proof.
  rewrite filter_lines_comment_free; [vm_compute; reflexivity|].
  repeat constructor.
Defined.

(** ** The Block Scanner *)

(** X4.  The Block Scanner only cuts the end of the document: its output is a
    prefix of the input that still holds the entry header at the same place,
    and scanning the output again changes nothing. *)
Theorem block_scanner_idempotent content :
  (exists n, block_scanner content = firstn n content) /\
  find (block_scanner content) entry_header = find content entry_header /\
  block_scanner (block_scanner content) = block_scanner content.
Proof.
  split; [apply block_scanner_prefix|].
  destruct (find content entry_header) as [start|] eqn:F.
  - destruct (scan_braces (skipn (start + length entry_header) content)
                          (start + length entry_header) 0) as [pos'|] eqn:S0.
    + destruct (block_scanner_found _ _ _ F S0)
        as (pre & body & rest & -> & <- & Hn & Hb & ->).
      apply (find_header_tail _ _ _ (body ++ [close_brace])) in F.
      split; [exact F|].
      unfold block_scanner. rewrite F. cbv zeta. rewrite skipn_header.
      change 0%Z with (Z.of_nat 0).
      rewrite scan_braces_closes; [apply firstn_through|exact Hn|].
      unfold brace_balanced in Hb. lia.
    + assert (E : block_scanner content = content).
      { unfold block_scanner. rewrite F. cbv zeta. now rewrite S0. }
      rewrite !E. auto.
  - assert (E : block_scanner content = content).
    { unfold block_scanner. now rewrite F. }
    rewrite !E. auto.
Qed.

(** ** The blank-run collapse *)

Lemma collapse_from_chars (f : char -> bool) s : forall pending,
  f newline = false ->
  List.filter f (collapse_from pending s) = List.filter f s /\
  length (collapse_from pending s) <= pending + length s.
Proof.
  intros pending Hn. revert pending.
  assert (Hf : forall pending,
             List.filter f (flush_newlines pending) = []
             /\ length (flush_newlines pending) <= pending).
  { intros pending. rewrite flush_newlines_min, repeat_length. split; [|lia].
    induction (Nat.min pending 2) as [|m IH]; [reflexivity|].
    cbn [repeat List.filter]. now rewrite Hn. }
  induction s as [|c s IH]; intros pending; cbn [collapse_from].
  - destruct (Hf pending) as [H1 H2]. rewrite H1. cbn. split; [reflexivity|lia].
  - destruct (N.eqb c newline) eqn:E.
    + destruct (IH (S pending)) as [H1 H2]. cbn [List.filter length].
      apply N.eqb_eq in E. subst c. rewrite Hn. split; [exact H1|lia].
    + destruct (IH 0) as [H1 H2]. destruct (Hf pending) as [H3 H4].
      rewrite filter_app, H3, length_app. cbn [List.filter app length].
      rewrite H1. split; [reflexivity|lia].
Qed.

(** X5.  The collapse removes newline characters only: the other characters are
    kept in order, the text never grows, and collapsing twice is collapsing
    once. *)
Theorem collapse_blank_only_newlines content :
  List.filter (fun c => negb (N.eqb c newline)) (collapse_blank content)
  = List.filter (fun c => negb (N.eqb c newline)) content /\
  length (collapse_blank content) <= length content /\
  collapse_blank (collapse_blank content) = collapse_blank content.
Proof.
  destruct (collapse_from_chars (fun c => negb (N.eqb c newline)) content 0 eq_refl)
    as [H1 H2].
  repeat split; [exact H1|exact H2|apply collapse_blank_idempotent].
Qed.

(** ** The glyph clean-up *)

Lemma flush_glyphs_cases pending :
  flush_glyphs pending = [] \/ exists g, pending = [g] /\ flush_glyphs pending = [g].
Proof.
  unfold flush_glyphs. destruct pending as [|g [|g' pending]]; cbn; eauto.
Qed.

Lemma lone_glyphs_cleanup s : forall pending,
  Forall (fun c => box_glyph c = true) pending ->
  lone_glyphs false (cleanup_from pending s) = true.
Proof.
  induction s as [|c s IH]; intros pending Hp; cbn [cleanup_from].
  - destruct (flush_glyphs_cases pending) as [->|(g & -> & ->)]; [reflexivity|].
    inversion Hp as [|? ? Hg _]; subst. cbn [lone_glyphs]. now rewrite Hg.
  - destruct (box_glyph c) eqn:Ec.
    + apply IH. apply Forall_app. split; [exact Hp|]. now constructor.
    + destruct (flush_glyphs_cases pending) as [->|(g & -> & ->)].
      * cbn [app lone_glyphs]. rewrite Ec. now apply IH.
      * inversion Hp as [|? ? Hg _]; subst. cbn [app lone_glyphs].
        rewrite Hg, Ec. cbn [negb andb]. now apply IH.
Qed.

Lemma lone_glyphs_sound s : forall after_glyph,
  lone_glyphs after_glyph s = true ->
  forall pre c1 c2 post,
    s = pre ++ c1 :: c2 :: post -> box_glyph c1 = false \/ box_glyph c2 = false.
Proof.
  induction s as [|c s IH]; intros after_glyph H pre c1 c2 post E.
  - destruct pre; discriminate.
  - cbn [lone_glyphs] in H. destruct pre as [|x pre]; cbn [app] in E.
    + injection E as -> ->. destruct (box_glyph c1) eqn:E1; [|now left].
      apply andb_true_iff in H as [_ H]. cbn [lone_glyphs] in H.
      destruct (box_glyph c2); [|now right]. discriminate.
    + injection E as -> E. destruct (box_glyph x).
      * apply andb_true_iff in H as [_ H]. eauto.
      * eauto.
Qed.

Lemma cleanup_from_chars s : forall pending,
  Forall (fun c => box_glyph c = true) pending ->
  List.filter (fun c => negb (box_glyph c)) (cleanup_from pending s)
  = List.filter (fun c => negb (box_glyph c)) s.
Proof.
  set (f := fun c : char => negb (box_glyph c)).
  assert (Hf : forall pending,
             Forall (fun c => box_glyph c = true) pending ->
             List.filter f (flush_glyphs pending) = []).
  { intros pending Hp.
    destruct (flush_glyphs_cases pending) as [->|(g & -> & ->)]; [reflexivity|].
    inversion Hp as [|? ? Hg _]; subst. cbn [List.filter]. unfold f.
    now rewrite Hg. }
  induction s as [|c s IH]; intros pending Hp; cbn [cleanup_from].
  - now apply Hf.
  - assert (Efc : f c = negb (box_glyph c)) by reflexivity.
    cbn [List.filter]. destruct (box_glyph c) eqn:Ec; cbn [negb] in Efc.
    + rewrite Efc. apply IH. apply Forall_app. split; [exact Hp|]. now constructor.
    + rewrite filter_app, (Hf _ Hp). cbn [app List.filter].
      rewrite Efc. now rewrite IH.
Qed.

(** X6.  After the clean-up no two glyphs of the class stand side by side; the
    characters outside the class are all kept, in order; and cleaning twice
    is cleaning once. *)
Theorem decorative_cleanup_lone_glyphs content :
  (forall pre c1 c2 post,
      decorative_cleanup content = pre ++ c1 :: c2 :: post ->
      box_glyph c1 = false \/ box_glyph c2 = false) /\
  List.filter (fun c => negb (box_glyph c)) (decorative_cleanup content)
  = List.filter (fun c => negb (box_glyph c)) content /\
  decorative_cleanup (decorative_cleanup content) = decorative_cleanup content.
Proof.
  pose proof (lone_glyphs_cleanup content [] (Forall_nil _)) as H.
  split; [|split].
  - exact (lone_glyphs_sound _ _ H).
  - apply cleanup_from_chars. constructor.
  - exact (cleanup_from_lone _ [] (or_introl eq_refl) H).
Qed.

(** ** The relabelling *)

(** X7.  Step 1 keeps the number of lines, leaves no line that starts with
    [package main], and changes nothing when run again. *)
Theorem relabel_idempotent content :
  length (split_nl (relabel content)) = length (split_nl content) /\
  Forall unlabelled (split_nl (relabel content)) /\
  relabel (relabel content) = relabel content.
Proof.
  assert (H : Forall unlabelled (split_nl (relabel content))).
  { rewrite relabel_lines. apply Forall_forall. intros l Hl.
    apply in_map_iff in Hl as (l0 & <- & _). apply relabel_line_unlabelled. }
  split; [|split].
  - now rewrite relabel_lines, length_map.
  - exact H.
  - now apply relabel_fixed.
Qed.

(** ** The whole of [aggressive_simplify] *)

(** X8.  Whatever the input, the text written back holds no two glyphs of the
    clean-up class side by side; for an input without such glyphs it holds
    no three newlines in a row either. *)
Theorem aggressive_simplify_output content :
  (forall pre c1 c2 post,
      aggressive_simplify content = pre ++ c1 :: c2 :: post ->
      box_glyph c1 = false \/ box_glyph c2 = false) /\
  (glyph_free content = true ->
   ~ occurs [newline; newline; newline] (aggressive_simplify content)).
Proof.
  split.
  - unfold aggressive_simplify, decorative_cleanup. cbv zeta.
    apply (lone_glyphs_sound _ false). apply lone_glyphs_cleanup. constructor.
  - intros Hg. apply glyph_free_iff in Hg.
    unfold aggressive_simplify. cbv zeta.
    rewrite cleanup_plain by (now apply plain_pipeline).
    apply (short_runs_sound _ 0). apply short_runs_collapse.
Qed.

(** ** The section filter of [simplify_go_file] *)

Lemma skip_sections_sub lines : forall skip_section,
  subseq (skip_sections skip_section lines) lines.
Proof.
  induction lines as [|l rest IH]; intros b; [constructor|].
  cbn [skip_sections].
  destruct (if marker l then true else if b && declares_func l then false else b);
    constructor; apply IH.
Qed.

Lemma skip_sections_unmarked lines : forall skip_section,
  Forall (fun l => marker l = false) (skip_sections skip_section lines).
Proof.
  induction lines as [|l rest IH]; intros b; [constructor|].
  cbn [skip_sections]. destruct (marker l) eqn:M; [apply IH|].
  destruct (b && declares_func l); [constructor; auto|].
  destruct b; [apply IH|constructor; auto].
Qed.

Lemma skip_sections_clean lines :
  Forall (fun l => marker l = false) lines -> skip_sections false lines = lines.
Proof.
  induction 1 as [|l rest Hl Hrest IH]; [reflexivity|].
  cbn [skip_sections]. rewrite Hl. cbn [andb]. now rewrite IH.
Qed.

(** X10.  The section filter only leaves lines out, and no line that holds a
    banned marker phrase is ever emitted. *)
Theorem skip_sections_output skip_section lines :
  subseq (skip_sections skip_section lines) lines /\
  Forall (fun l => marker l = false) (skip_sections skip_section lines).
Proof. split; [apply skip_sections_sub|apply skip_sections_unmarked]. Qed.

(** X11.  A text without marker phrases passes the section filter unchanged;
    hence filtering a second time changes nothing. *)
Theorem skip_sections_idempotent lines :
  (Forall (fun l => marker l = false) lines -> skip_sections false lines = lines) /\
  skip_sections false (skip_sections false lines) = skip_sections false lines.
Proof.
  split; [apply skip_sections_clean|].
  apply skip_sections_clean, skip_sections_unmarked.
Qed.

(** X12.  When no line after a marker line starts with [func ] without holding a
    marker phrase itself, everything from the marker line to the end of the
    document is dropped. *)
Theorem skip_sections_to_end skip_section pre m rest :
  marker m = true ->
  Forall (fun l => marker l = true \/ declares_func l = false) rest ->
  skip_sections skip_section (pre ++ m :: rest)
  = skip_sections skip_section pre.
Proof.
  intros Hm Hrest.
  destruct (skip_sections_app pre skip_section (m :: rest)) as [b' ->].
  cbn [skip_sections]. rewrite Hm.
  rewrite <- (app_nil_r rest), skip_sections_skipping by assumption.
  cbn [skip_sections]. apply app_nil_r.
Qed.

Lemma skip_sections_to_end_witness :
  skip_sections false
    [lit "func main() {"; lit "}"; lit "// KEY TAKEAWAYS"; lit "// 1. func values";
     lit "// 2. closures"]
  = skip_sections false [lit "func main() {"; lit "}"].
Proof.
  apply (skip_sections_to_end false [lit "func main() {"; lit "}"]
           (lit "// KEY TAKEAWAYS") [lit "// 1. func values"; lit "// 2. closures"]).
  - vm_compute. reflexivity.
  - constructor; [right; reflexivity|].
    constructor; [right; reflexivity|]. constructor.
Defined.

(** ** The pattern matcher *)

Lemma greedy_sound class k s : forall least n,
  greedy class least k s = Some n ->
  exists a rest m,
    s = a ++ rest /\ forallb class a = true /\ least <= length a /\
    k rest = Some m /\ n = length a + m.
Proof.
  assert (Hstop : forall least n s0,
             (if least =? 0 then k s0 else None) = Some n ->
             exists a rest m,
               s0 = a ++ rest /\ forallb class a = true /\ least <= length a /\
               k rest = Some m /\ n = length a + m).
  { intros least n s0 H. destruct (least =? 0) eqn:E; [|discriminate].
    apply Nat.eqb_eq in E. subst least. exists [], s0, n. cbn. auto with arith. }
  induction s as [|c s IH]; intros least n H; cbn [greedy] in H; [now apply Hstop|].
  destruct (class c) eqn:Ec; [|now apply Hstop].
  destruct (greedy class (pred least) k s) as [n'|] eqn:G; [|now apply Hstop].
  injection H as <-.
  destruct (IH _ _ G) as (a & rest & m & -> & Ha & Hl & Hk & ->).
  exists (c :: a), rest, m. cbn [app forallb length]. rewrite Ec, Ha.
  repeat split; auto; lia.
Qed.

Lemma lazy_sound class k s : forall least n,
  lazy class least k s = Some n ->
  exists a rest m,
    s = a ++ rest /\ forallb class a = true /\ least <= length a /\
    k rest = Some m /\ n = length a + m.
Proof.
  induction s as [|c s IH]; intros least n H.
  - destruct least as [|l]; cbn [lazy] in H; [|discriminate].
    destruct (k []) as [m|] eqn:K; [|discriminate]. injection H as <-.
    exists [], [], m. cbn. auto.
  - destruct least as [|l]; cbn [lazy] in H.
    + destruct (k (c :: s)) as [m|] eqn:K.
      * injection H as <-. exists [], (c :: s), m. cbn. auto.
      * destruct (class c) eqn:Ec; [|discriminate].
        destruct (lazy class 0 k s) as [n'|] eqn:L; [|discriminate].
        injection H as <-.
        destruct (IH _ _ L) as (a & rest & m & -> & Ha & Hl & Hk & ->).
        exists (c :: a), rest, m. cbn [app forallb length]. rewrite Ec, Ha.
        repeat split; auto; lia.
    + destruct (class c) eqn:Ec; [|discriminate].
      destruct (lazy class l k s) as [n'|] eqn:L; [|discriminate].
      injection H as <-.
      destruct (IH _ _ L) as (a & rest & m & -> & Ha & Hl & Hk & ->).
      exists (c :: a), rest, m. cbn [app forallb length]. rewrite Ec, Ha.
      repeat split; auto; lia.
Qed.

Lemma first_alt_sound texts k s : forall n,
  first_alt texts k s = Some n ->
  exists t rest m,
    In t texts /\ s = t ++ rest /\ k rest = Some m /\ n = length t + m.
Proof.
  induction texts as [|t texts IH]; intros n H; cbn [first_alt] in H; [discriminate|].
  assert (Hnext : first_alt texts k s = Some n ->
                  exists t0 rest m,
                    In t0 (t :: texts) /\ s = t0 ++ rest /\ k rest = Some m /\
                    n = length t0 + m).
  { intros H'. destruct (IH _ H') as (t0 & rest & m & Hin & E & Hk & En).
    exists t0, rest, m. repeat split; auto. now right. }
  destruct (startswith s t) eqn:St; [|auto].
  destruct (k (skipn (length t) s)) as [m|] eqn:K; [|auto].
  injection H as <-. apply startswith_inv in St as [rest ->].
  rewrite skipn_app, skipn_all, Nat.sub_diag in K. cbn in K.
  exists t, rest, m. repeat split; auto. now left.
Qed.

(** What the matcher finds at the start of a text is a word of the pattern,
    and a prefix of the text. *)
Lemma match_here_sound r : forall s n,
  match_here r s = Some n ->
  exists w rest, s = w ++ rest /\ length w = n /\ Matches r w.
Proof.
  induction r as [|i r IH]; intros s n H; cbn [match_here] in H.
  - injection H as <-. exists [], s. repeat split. constructor.
  - destruct i as [t|class|class least|class least|texts].
    + destruct (startswith s t) eqn:St; [|discriminate].
      apply startswith_inv in St as [rest ->].
      rewrite skipn_app, skipn_all, Nat.sub_diag in H. cbn [skipn app] in H.
      destruct (match_here r rest) as [m|] eqn:M; [|discriminate].
      injection H as <-. destruct (IH _ _ M) as (w & rest' & -> & <- & Hw).
      exists (t ++ w), rest'. rewrite <- app_assoc, length_app.
      repeat split. now constructor.
    + destruct s as [|c s]; [discriminate|].
      destruct (class c) eqn:Ec; [|discriminate].
      destruct (match_here r s) as [m|] eqn:M; [|discriminate].
      injection H as <-. destruct (IH _ _ M) as (w & rest' & -> & <- & Hw).
      exists (c :: w), rest'. repeat split. now constructor.
    + destruct (greedy_sound _ _ _ _ _ H) as (a & rest & m & -> & Ha & Hl & M & ->).
      destruct (IH _ _ M) as (w & rest' & -> & <- & Hw).
      exists (a ++ w), rest'. rewrite <- app_assoc, length_app.
      repeat split. now constructor.
    + destruct (lazy_sound _ _ _ _ _ H) as (a & rest & m & -> & Ha & Hl & M & ->).
      destruct (IH _ _ M) as (w & rest' & -> & <- & Hw).
      exists (a ++ w), rest'. rewrite <- app_assoc, length_app.
      repeat split. now constructor.
    + destruct (first_alt_sound _ _ _ _ H) as (t & rest & m & Hin & -> & M & ->).
      destruct (IH _ _ M) as (w & rest' & -> & <- & Hw).
      exists (t ++ w), rest'. rewrite <- app_assoc, length_app.
      repeat split. now constructor.
Qed.

Lemma greedy_complete class k a : forall least rest,
  forallb class a = true -> least <= length a -> k rest <> None ->
  greedy class least k (a ++ rest) <> None.
Proof.
  induction a as [|c a IH]; intros least rest Ha Hl Hk.
  - cbn in Hl. assert (least = 0) by lia. subst least. cbn [app].
    destruct rest as [|c s]; cbn [greedy Nat.eqb]; [exact Hk|].
    destruct (class c); [|exact Hk].
    destruct (greedy class (pred 0) k s); [discriminate|exact Hk].
  - cbn [forallb] in Ha. apply andb_true_iff in Ha as [Hc Ha].
    cbn [app greedy]. rewrite Hc.
    specialize (IH (pred least) rest Ha ltac:(cbn in Hl; lia) Hk).
    destruct (greedy class (pred least) k (a ++ rest)); [discriminate|contradiction].
Qed.

Lemma lazy_complete class k a : forall least rest,
  forallb class a = true -> least <= length a -> k rest <> None ->
  lazy class least k (a ++ rest) <> None.
Proof.
  induction a as [|c a IH]; intros least rest Ha Hl Hk.
  - cbn in Hl. assert (least = 0) by lia. subst least. cbn [app].
    destruct rest as [|c s]; cbn [lazy]; destruct (k _); congruence.
  - cbn [forallb] in Ha. apply andb_true_iff in Ha as [Hc Ha].
    cbn [app]. destruct least as [|l]; cbn [lazy]; rewrite Hc.
    + destruct (k (c :: a ++ rest)); [discriminate|].
      specialize (IH 0 rest Ha ltac:(lia) Hk).
      destruct (lazy class 0 k (a ++ rest)); [discriminate|contradiction].
    + specialize (IH l rest Ha ltac:(cbn in Hl; lia) Hk).
      destruct (lazy class l k (a ++ rest)); [discriminate|contradiction].
Qed.

Lemma first_alt_complete texts k t rest :
  In t texts -> k rest <> None -> first_alt texts k (t ++ rest) <> None.
Proof.
  induction texts as [|t0 texts IH]; intros Hin Hk; [contradiction|].
  cbn [first_alt]. destruct Hin as [->|Hin].
  - rewrite startswith_app, skipn_app, skipn_all, Nat.sub_diag. cbn [skipn app].
    destruct (k rest); [discriminate|contradiction].
  - destruct (startswith (t ++ rest) t0); [|auto].
    destruct (k (skipn (length t0) (t ++ rest))); [discriminate|auto].
Qed.

(** Where a word of the pattern starts the text, the matcher finds a
    match. *)
Lemma match_here_complete r w :
  Matches r w -> forall rest, match_here r (w ++ rest) <> None.
Proof.
  induction 1 as [|t r w Hw IH|class r c w Hc Hw IH|class least r a w Ha Hl Hw IH
                  |class least r a w Ha Hl Hw IH|t texts r w Hin Hw IH];
    intros rest; cbn [match_here].
  - discriminate.
  - rewrite <- app_assoc, startswith_app, skipn_app, skipn_all, Nat.sub_diag.
    cbn [skipn app]. specialize (IH rest).
    destruct (match_here r (w ++ rest)); [discriminate|contradiction].
  - cbn [app]. rewrite Hc. specialize (IH rest).
    destruct (match_here r (w ++ rest)); [discriminate|contradiction].
  - rewrite <- app_assoc. now apply greedy_complete.
  - rewrite <- app_assoc. now apply lazy_complete.
  - rewrite <- app_assoc. now apply first_alt_complete.
Qed.

(** ** Substitution *)

Lemma re_sub_match r repl c s n :
  match_here r (c :: s) = Some (S n) ->
  re_sub r repl (c :: s)
  = repl (firstn (S n) (c :: s)) ++ re_sub r repl (skipn n s).
Proof. intros H. simp re_sub. rewrite H. reflexivity. Qed.

Lemma re_sub_skip r repl c s :
  (forall n, match_here r (c :: s) <> Some (S n)) ->
  re_sub r repl (c :: s) = c :: re_sub r repl s.
Proof.
  intros H. simp re_sub. destruct (match_here r (c :: s)) as [[|n]|] eqn:M.
  - reflexivity.
  - now destruct (H n).
  - reflexivity.
Qed.

Lemma occurs_trans a b c : occurs a b -> occurs b c -> occurs a c.
Proof.
  intros (p1 & q1 & ->) (p2 & q2 & ->).
  exists (p2 ++ p1), (q1 ++ q2). now rewrite <- !app_assoc.
Qed.

Lemma occurs_cons sub c s : occurs sub s -> occurs sub (c :: s).
Proof. intros (p & q & ->). now exists (c :: p), q. Qed.

(** A text in which no non-empty word of the pattern occurs is left as it
    is. *)
Lemma re_sub_unmatched r repl s :
  (forall w, Matches r w -> w <> [] -> ~ occurs w s) ->
  re_sub r repl s = s.
Proof.
  induction s as [|c s IH]; intros H; [now simp re_sub|].
  rewrite re_sub_skip.
  - f_equal. apply IH. intros w Hw Hne Ho. apply (H w Hw Hne).
    now apply occurs_cons.
  - intros n M. destruct (match_here_sound _ _ _ M) as (w & rest & E & Hl & Hw).
    apply (H w Hw); [destruct w; [discriminate|discriminate]|].
    exists [], rest. exact E.
Qed.

(** A replacement that gives back every word of the pattern changes
    nothing. *)
Lemma re_sub_fixed r repl s :
  (forall w, Matches r w -> repl w = w) -> re_sub r repl s = s.
Proof.
  intros H. remember (length s) as k eqn:Hk. revert s Hk.
  induction k as [k IH] using lt_wf_ind. intros s Hk.
  destruct s as [|c s]; [now simp re_sub|].
  destruct (match_here r (c :: s)) as [[|n]|] eqn:M.
  - rewrite re_sub_skip by (intros n; rewrite M; discriminate).
    f_equal. apply (IH (length s)); [subst k; cbn; lia|reflexivity].
  - rewrite (re_sub_match _ _ _ _ _ M).
    destruct (match_here_sound _ _ _ M) as (w & rest & E & Hl & Hw).
    assert (Ew : firstn (S n) (c :: s) = w)
      by (rewrite E, <- Hl; apply firstn_pre).
    rewrite Ew, (H w Hw).
    rewrite (IH (length (skipn n s))); [|subst k; rewrite length_skipn; cbn; lia|reflexivity].
    change (skipn n s) with (skipn (S n) (c :: s)).
    rewrite <- Ew. apply firstn_skipn.
  - rewrite re_sub_skip by (intros n; rewrite M; discriminate).
    f_equal. apply (IH (length s)); [subst k; cbn; lia|reflexivity].
Qed.

(** Replacing by the empty text only leaves characters out. *)
Lemma re_sub_deletes r s : subseq (re_sub r (fun _ => []) s) s.
Proof.
  remember (length s) as k eqn:Hk. revert s Hk.
  induction k as [k IH] using lt_wf_ind. intros s Hk.
  destruct s as [|c s]; [simp re_sub; constructor|].
  destruct (match_here r (c :: s)) as [[|n]|] eqn:M.
  - rewrite re_sub_skip by (intros n; rewrite M; discriminate).
    apply subseq_keep. apply (IH (length s)); [subst k; cbn; lia|reflexivity].
  - rewrite (re_sub_match _ _ _ _ _ M). cbn [app].
    apply subseq_skip. apply (subseq_trans _ (skipn n s)); [|apply subseq_skipn].
    apply (IH (length (skipn n s))); [subst k; rewrite length_skipn; cbn; lia|reflexivity].
  - rewrite re_sub_skip by (intros n; rewrite M; discriminate).
    apply subseq_keep. apply (IH (length s)); [subst k; cbn; lia|reflexivity].
Qed.

(** ** The regular-expression steps of [simplify_go_file] *)

(** Takes a hypothesis [Matches r w] for a pattern given item by item
    apart. *)
Ltac invert_matches :=
  repeat match goal with
    | H : Matches (_ :: _) _ |- _ => inversion H; subst; clear H
    | H : Matches [] _ |- _ => inversion H; subst; clear H
    end.

Lemma occurs_count c w s : occurs w s -> count c w <= count c s.
Proof. intros (pre & post & ->). rewrite !count_app. lia. Qed.

Lemma count_run a : forallb equals_sign a = true -> count 61%N a = length a.
Proof.
  induction a as [|c a IH]; intros H; [reflexivity|].
  cbn [forallb] in H. apply andb_true_iff in H as [Hc H].
  rewrite count_cons. unfold equals_sign in Hc. rewrite Hc. cbn [length].
  now rewrite IH.
Qed.

Lemma occurs_middle (pre sub post : str) : occurs sub (pre ++ sub ++ post).
Proof. now exists pre, post. Qed.

Lemma deep_dive_words w :
  Matches deep_dive_block w ->
  exists a b,
    w = (lit "/*" ++ [newline]) ++ (a ++ lit "DEEP DIVE" ++ b) ++ lit "*/" /\
    forallb not_star (a ++ lit "DEEP DIVE" ++ b) = true.
Proof.
  unfold deep_dive_block. intros H. invert_matches.
  match goal with
  | Ha : forallb not_star ?a = true, Hb : forallb not_star ?b = true |- _ =>
      exists a, b; split;
      [now rewrite <- !app_assoc, app_nil_r
      |rewrite !forallb_app, Ha, Hb; reflexivity]
  end.
Qed.

Lemma section_header_words w :
  Matches section_header w -> 200 <= count 61%N w.
Proof.
  unfold section_header. intros H. invert_matches.
  repeat (rewrite ?count_app, ?count_cons).
  repeat match goal with
    | Ha : forallb equals_sign ?a = true |- _ =>
        rewrite (count_run a Ha); clear Ha
    end.
  lia.
Qed.

Lemma println_header_words decimal w :
  Matches (println_header decimal) w ->
  exists d t,
    w = (lit "fmt.Println(" ++ [34; 92]%N ++ lit "n=== Example ")
          ++ d ++ lit ": " ++ t ++ lit "===" ++ [34]%N ++ lit ")" /\
    forallb decimal d = true /\ forallb not_quote t = true.
Proof.
  unfold println_header. intros H. invert_matches.
  match goal with
  | Hd : forallb decimal ?d = true, Ht : forallb not_quote ?t = true |- _ =>
      exists d, t; repeat split; auto;
      now rewrite <- !app_assoc, app_nil_r
  end.
Qed.

Lemma example_function_words decimal w :
  Matches (example_function decimal) w -> occurs (lit "Example") w.
Proof.
  unfold example_function. intros H. invert_matches.
  match goal with
  | |- occurs _ (_ ++ ?t ++ _ ++ ?a ++ ?z) =>
      exists (lit "func " ++ t), (a ++ z); now rewrite <- !app_assoc
  end.
Qed.

Lemma rename_examples_identity_aux decimal content :
  rename_examples decimal content = content.
Proof.
  unfold rename_examples. apply re_sub_fixed. intros w Hw.
  apply example_function_words, contains_iff in Hw.
  unfold rename_example. now rewrite Hw.
Qed.

(** X13.  Step 3 never changes the text: every match of its pattern holds
    [Example], and for such a match the [lambda] gives the match back. *)
Theorem rename_examples_identity decimal content :
  rename_examples decimal content = content.
Proof.
  unfold rename_examples. apply re_sub_fixed. intros w Hw.
  apply example_function_words, contains_iff in Hw.
  unfold rename_example. now rewrite Hw.
Qed.

(** X14.  The three removals of steps 2 and 4 only leave characters out: each
    output is a subsequence of the input, hence no longer than it. *)
Theorem regex_steps_only_delete decimal content :
  subseq (remove_deep_dive content) content /\
  subseq (remove_section_headers content) content /\
  subseq (remove_println_headers decimal content) content /\
  length (remove_println_headers decimal
            (remove_section_headers (remove_deep_dive content)))
  <= length content.
Proof.
  repeat split; try apply re_sub_deletes.
  pose proof (subseq_length _ _ (re_sub_deletes deep_dive_block content)).
  pose proof (subseq_length _ _
                (re_sub_deletes section_header (remove_deep_dive content))).
  pose proof (subseq_length _ _
                (re_sub_deletes (println_header decimal)
                   (remove_section_headers (remove_deep_dive content)))).
  unfold remove_println_headers, remove_section_headers, remove_deep_dive in *.
  lia.
Qed.

Lemma remove_deep_dive_unmatched content :
  contains content (lit "DEEP DIVE") = false -> remove_deep_dive content = content.
Proof.
  intros H. apply re_sub_unmatched. intros w Hw _ Ho.
  destruct (deep_dive_words w Hw) as (a & b & -> & _).
  assert (Hc : contains content (lit "DEEP DIVE") = true); [|congruence].
  apply contains_iff. refine (occurs_trans _ _ _ _ Ho).
  exists ((lit "/*" ++ [newline]) ++ a), (b ++ lit "*/").
  now rewrite <- !app_assoc.
Qed.

Lemma remove_section_headers_unmatched content :
  count 61%N content < 200 -> remove_section_headers content = content.
Proof.
  intros H. apply re_sub_unmatched. intros w Hw _ Ho.
  pose proof (section_header_words w Hw).
  pose proof (occurs_count 61%N _ _ Ho). lia.
Qed.

Lemma remove_println_headers_unmatched decimal content :
  contains content (lit "=== Example ") = false ->
  remove_println_headers decimal content = content.
Proof.
  intros H. apply re_sub_unmatched. intros w Hw _ Ho.
  destruct (println_header_words decimal w Hw) as (d & t & -> & _).
  assert (Hc : contains content (lit "=== Example ") = true); [|congruence].
  apply contains_iff. refine (occurs_trans _ _ _ _ Ho).
  exists (lit "fmt.Println(" ++ [34; 92; 110]%N),
         (d ++ lit ": " ++ t ++ lit "===" ++ [34]%N ++ lit ")").
  reflexivity.
Qed.

(** X15.  What the removals of steps 2 and 4 need in order to remove anything: the
    first needs [DEEP DIVE] in the text, the second at least 200 equals
    signs (four runs of 50), the third the text [=== Example ]. *)
Theorem regex_steps_untouched decimal content :
  (contains content (lit "DEEP DIVE") = false -> remove_deep_dive content = content) /\
  (count 61%N content < 200 -> remove_section_headers content = content) /\
  (contains content (lit "=== Example ") = false ->
   remove_println_headers decimal content = content).
Proof.
  split; [apply remove_deep_dive_unmatched|].
  split; [apply remove_section_headers_unmatched|].
  apply remove_println_headers_unmatched.
Qed.

Lemma regex_steps_untouched_witness :
  let banner :=
    join_nl [lit "// " ++ repeat 61%N 60; lit "// CLOSURES";
             lit "// " ++ repeat 61%N 60; lit "package x"] in
  remove_section_headers banner = banner.
Proof.
  cbv zeta.
  refine (proj1 (proj2 (regex_steps_untouched ascii_digit _)) _).
  vm_compute. lia.
Defined.

(** A run of characters of one class that ends at a character outside the
    class ends at one place only. *)
Lemma run_split_unique (class : char -> bool) x b1 : forall b2 r1 r2,
  class x = false ->
  forallb class b1 = true -> forallb class b2 = true ->
  b1 ++ x :: r1 = b2 ++ x :: r2 -> b1 = b2 /\ r1 = r2.
Proof.
  induction b1 as [|c b1 IH]; intros b2 r1 r2 Hx H1 H2 E.
  - destruct b2 as [|c b2]; cbn [app] in E.
    + injection E as ->. auto.
    + injection E as <- _. cbn [forallb] in H2. rewrite Hx in H2. discriminate.
  - destruct b2 as [|c' b2]; cbn [app] in E.
    + injection E as -> _. cbn [forallb] in H1. rewrite Hx in H1. discriminate.
    + injection E as <- E. cbn [forallb] in H1, H2.
      apply andb_true_iff in H1 as [_ H1]. apply andb_true_iff in H2 as [_ H2].
      destruct (IH _ _ _ Hx H1 H2 E) as [-> ->]. auto.
Qed.

Lemma skipn_pre (pre tail : str) : skipn (length pre) (pre ++ tail) = tail.
Proof. now rewrite skipn_app, skipn_all, Nat.sub_diag. Qed.

(** When the only match that can start a text is known, the substitution
    removes it and goes on after it. *)
Lemma re_sub_removes r w post :
  Matches r w -> w <> [] ->
  (forall w' rest', Matches r w' -> w ++ post = w' ++ rest' -> w' = w) ->
  re_sub r (fun _ => []) (w ++ post) = re_sub r (fun _ => []) post.
Proof.
  intros Hw Hne Huniq.
  destruct (match_here r (w ++ post)) as [n|] eqn:M;
    [|now destruct (match_here_complete r w Hw post)].
  destruct (match_here_sound _ _ _ M) as (w' & rest' & E & Hl & Hw').
  pose proof (Huniq _ _ Hw' E) as ->.
  destruct w as [|c w]; [contradiction|]. cbn [length] in Hl. subst n.
  cbn [app] in *. rewrite (re_sub_match _ _ _ _ _ M). cbn [app].
  now rewrite skipn_pre.
Qed.

Lemma contains_cons c s sub :
  contains (c :: s) sub = false ->
  startswith (c :: s) sub = false /\ contains s sub = false.
Proof.
  unfold contains. cbn [find].
  destruct (startswith (c :: s) sub); [intros H; discriminate H|].
  destruct (find s sub); cbn [option_map]; intros H; [discriminate H|auto].
Qed.

(** The opening of a block cannot begin in the text before another opening
    and end inside it. *)
Lemma opener_not_astride c pre tail :
  startswith (c :: pre) (lit "/*" ++ [newline]) = false ->
  startswith ((c :: pre) ++ (lit "/*" ++ [newline]) ++ tail)
             (lit "/*" ++ [newline]) = false.
Proof.
  change (lit "/*" ++ [newline]) with [47; 42; 10]%N.
  destruct pre as [|c1 [|c2 pre]]; cbn [app startswith]; intros H.
  - now rewrite andb_false_r.
  - now rewrite !andb_false_r.
  - exact H.
Qed.

(** The substitution passes over a text in which no block opens. *)
Lemma remove_deep_dive_skips pre : forall tail,
  contains pre (lit "/*" ++ [newline]) = false ->
  remove_deep_dive (pre ++ (lit "/*" ++ [newline]) ++ tail)
  = pre ++ remove_deep_dive ((lit "/*" ++ [newline]) ++ tail).
Proof.
  induction pre as [|c pre IH]; intros tail H; [reflexivity|].
  apply contains_cons in H as [Hs Hc].
  unfold remove_deep_dive in *. cbn [app].
  rewrite re_sub_skip; [now rewrite IH|].
  intros n. unfold deep_dive_block. cbn [match_here].
  change (c :: pre ++ (lit "/*" ++ [newline]) ++ tail)
    with ((c :: pre) ++ (lit "/*" ++ [newline]) ++ tail).
  rewrite (opener_not_astride _ _ _ Hs). discriminate.
Qed.

(** At a block that holds no asterisk before its closing marker and mentions
    [DEEP DIVE], the only match is the whole block. *)
Lemma remove_deep_dive_here body post :
  forallb not_star body = true ->
  contains body (lit "DEEP DIVE") = true ->
  remove_deep_dive ((lit "/*" ++ [newline]) ++ body ++ lit "*/" ++ post)
  = remove_deep_dive post.
Proof.
  intros Hs Hd. apply contains_iff in Hd as (a & b & ->).
  unfold remove_deep_dive.
  replace ((lit "/*" ++ [newline]) ++ (a ++ lit "DEEP DIVE" ++ b) ++ lit "*/" ++ post)
    with (((lit "/*" ++ [newline]) ++ (a ++ lit "DEEP DIVE" ++ b) ++ lit "*/") ++ post)
    by (now rewrite <- !app_assoc).
  apply re_sub_removes.
  - rewrite !forallb_app in Hs.
    apply andb_true_iff in Hs as [Ha Hs]. apply andb_true_iff in Hs as [_ Hb].
    unfold deep_dive_block.
    replace ((lit "/*" ++ [newline]) ++ (a ++ lit "DEEP DIVE" ++ b) ++ lit "*/")
      with ((lit "/*" ++ [newline]) ++ a ++ lit "DEEP DIVE" ++ b ++ lit "*/" ++ [])
      by (now rewrite <- !app_assoc, app_nil_r).
    repeat constructor; auto with arith.
  - discriminate.
  - intros w' rest' Hw' E.
    destruct (deep_dive_words w' Hw') as (a' & b' & -> & Hs').
    remember (a ++ lit "DEEP DIVE" ++ b) as body eqn:Eb.
    remember (a' ++ lit "DEEP DIVE" ++ b') as body' eqn:Eb'.
    rewrite <- !app_assoc in E.
    apply app_inv_head in E. apply app_inv_head in E.
    change (lit "*/" ++ post) with (42%N :: 47%N :: post) in E.
    change (lit "*/" ++ rest') with (42%N :: 47%N :: rest') in E.
    destruct (run_split_unique not_star 42%N _ _ _ _ eq_refl Hs Hs' E) as [E' _].
    now rewrite E'.
Qed.

(** X16.  Step 2 removes the first block of a text that opens with [/*] at the
    end of a line, when that block holds no asterisk before its closing
    marker and mentions [DEEP DIVE]: if the text before the block holds no
    [/*] at the end of a line, that text stays as it is, the whole block
    goes, and the substitution goes on after it.  Without the condition on
    the text before, a match that begins there can run into the block and
    keep it from being matched ([remove_deep_dive_overlap]). *)
Theorem remove_deep_dive_block pre body post :
  contains pre (lit "/*" ++ [newline]) = false ->
  forallb not_star body = true ->
  contains body (lit "DEEP DIVE") = true ->
  remove_deep_dive (pre ++ (lit "/*" ++ [newline]) ++ body ++ lit "*/" ++ post)
  = pre ++ remove_deep_dive post.
Proof.
  intros Hp Hs Hd. rewrite (remove_deep_dive_skips pre _ Hp).
  now rewrite (remove_deep_dive_here body post Hs Hd).
Qed.

Lemma remove_deep_dive_block_witness :
  remove_deep_dive
    (join_nl [lit "package main"; lit "/* short */"; lit "/*";
              lit "DEEP DIVE: closures"; lit "- capture"; lit "*/";
              lit "package x"])
  = join_nl [lit "package main"; lit "/* short */"; []]
    ++ remove_deep_dive (newline :: lit "package x").
Proof.
  apply (remove_deep_dive_block
           (join_nl [lit "package main"; lit "/* short */"; []])
           (join_nl [lit "DEEP DIVE: closures"; lit "- capture"; []])
           (newline :: lit "package x")); vm_compute; reflexivity.
Defined.

(** A block of that form is kept when a match that begins before it ends on
    its first character: here the first match is the text up to the second
    [*/], and what is left of the second block is no match. *)
Example remove_deep_dive_overlap :
  remove_deep_dive
    ((lit "/*" ++ [newline]) ++ lit "DEEP DIVE */*" ++ [newline] ++ lit "DEEP DIVE*/")
  = lit "*" ++ [newline] ++ lit "DEEP DIVE*/".
Proof. vm_compute. reflexivity. Qed.

(** X17.  The pattern of step 2 matches at the start of a text only when the text
    there is [/*], a newline, a body without any asterisk that mentions
    [DEEP DIVE], and [*/]; and then it does match.  So a block with an
    asterisk inside, such as one whose lines start with [ * ], is never
    removed. *)
Theorem deep_dive_match s :
  match_here deep_dive_block s <> None <->
  exists body post,
    s = (lit "/*" ++ [newline]) ++ body ++ lit "*/" ++ post /\
    forallb not_star body = true /\ occurs (lit "DEEP DIVE") body.
Proof.
  split.
  - destruct (match_here deep_dive_block s) as [n|] eqn:M; [intros _|congruence].
    destruct (match_here_sound _ _ _ M) as (w & rest & -> & _ & Hw).
    destruct (deep_dive_words w Hw) as (a & b & -> & Hs).
    exists (a ++ lit "DEEP DIVE" ++ b), rest.
    split; [now rewrite <- !app_assoc|]. split; [exact Hs|apply occurs_middle].
  - intros (body & post & -> & Hs & a & b & ->).
    rewrite !forallb_app in Hs.
    apply andb_true_iff in Hs as [Ha Hs]. apply andb_true_iff in Hs as [_ Hb].
    replace ((lit "/*" ++ [newline]) ++ (a ++ lit "DEEP DIVE" ++ b) ++ lit "*/" ++ post)
      with (((lit "/*" ++ [newline]) ++ a ++ lit "DEEP DIVE" ++ b ++ lit "*/" ++ []) ++ post)
      by (now rewrite <- !app_assoc).
    apply match_here_complete. unfold deep_dive_block.
    repeat constructor; auto with arith.
Qed.

(** X18.  Step 4 removes a call [fmt.Println] of a string literal that starts with
    backslash, [n], [=== Example ], then digits, a colon and a space, a title
    without double quote, and [===]: the whole call goes. *)
Theorem remove_println_header decimal digits title post :
  decimal 58%N = false ->
  digits <> [] -> forallb decimal digits = true ->
  title <> [] -> forallb not_quote title = true ->
  remove_println_headers decimal
    ((lit "fmt.Println(" ++ [34; 92]%N ++ lit "n=== Example ")
       ++ digits ++ lit ": " ++ title ++ lit "===" ++ [34]%N ++ lit ")" ++ post)
  = remove_println_headers decimal post.
Proof.
  intros Hcolon Hd1 Hd Ht1 Ht. unfold remove_println_headers.
  set (open := lit "fmt.Println(" ++ [34; 92]%N ++ lit "n=== Example ").
  replace (open ++ digits ++ lit ": " ++ title ++ lit "===" ++ [34]%N ++ lit ")" ++ post)
    with ((open ++ digits ++ lit ": " ++ title ++ lit "===" ++ [34]%N ++ lit ")") ++ post)
    by (now rewrite <- !app_assoc).
  apply re_sub_removes.
  - unfold println_header. fold open.
    replace (open ++ digits ++ lit ": " ++ title ++ lit "===" ++ [34]%N ++ lit ")")
      with (open ++ digits ++ lit ": " ++ title ++ (lit "===" ++ [34]%N ++ lit ")") ++ [])
      by (now rewrite <- !app_assoc, app_nil_r).
    repeat constructor; auto.
    + destruct digits; [contradiction|cbn; lia].
    + destruct title; [contradiction|cbn; lia].
  - unfold open. discriminate.
  - intros w' rest' Hw' E.
    destruct (println_header_words decimal w' Hw') as (d' & t' & -> & Hd' & Ht').
    fold open in E |- *.
    rewrite <- !app_assoc in E. apply app_inv_head in E.
    change (lit ": " ++ ?x) with (58%N :: 32%N :: x) in E.
    destruct (run_split_unique decimal 58%N _ _ _ _ Hcolon Hd Hd' E) as [<- E1].
    injection E1 as E1.
    assert (Ea : forall t r : str,
               t ++ 61%N :: 61%N :: 61%N :: 34%N :: r = (t ++ lit "===") ++ 34%N :: r)
      by (intros; now rewrite <- app_assoc).
    rewrite !Ea in E1.
    assert (Hq : forall t, forallb not_quote t = true ->
                           forallb not_quote (t ++ lit "===") = true).
    { intros t H. now rewrite forallb_app, H. }
    destruct (run_split_unique not_quote 34%N _ _ _ _ eq_refl (Hq _ Ht) (Hq _ Ht') E1)
      as [E2 _].
    apply app_inv_tail in E2. now subst t'.
Qed.

Lemma remove_println_header_witness :
  remove_println_headers ascii_digit
    (lit "fmt.Println(" ++ [34; 92]%N ++ lit "n=== Example 12: Closures ===" ++ [34]%N
       ++ lit ")" ++ lit " // done")
  = remove_println_headers ascii_digit (lit " // done").
Proof.
  apply (remove_println_header ascii_digit (lit "12") (lit "Closures ") (lit " // done"));
    try reflexivity; discriminate.
Defined.

(** ** The whole of [simplify_go_file] *)

Lemma differs_false a b : differs a b = false <-> a = b.
Proof. unfold differs. destruct (list_eq_dec N.eq_dec a b); split; congruence. Qed.

Lemma add_package_header_starts content :
  startswith (add_package_header content) (lit "package") = true.
Proof.
  unfold add_package_header.
  destruct (startswith content (lit "package")) eqn:E; [exact E|reflexivity].
Qed.

(** X19.  After the call the file always starts with [package], whatever it held
    before; the value returned tells whether the text changed; and step 7 on
    its own adds its header once only. *)
Theorem simplify_go_file_package decimal content :
  startswith (fst (simplify_go_file decimal content)) (lit "package") = true /\
  fst (simplify_go_file decimal content) = simplify_text decimal content /\
  (snd (simplify_go_file decimal content) = false <->
   simplify_text decimal content = content) /\
  add_package_header (add_package_header content) = add_package_header content.
Proof.
  assert (Hs : startswith (simplify_text decimal content) (lit "package") = true)
    by apply add_package_header_starts.
  unfold simplify_go_file. cbv zeta.
  destruct (differs (simplify_text decimal content) content) eqn:D; cbn [fst snd].
  - repeat split; auto; try discriminate.
    + intros E. apply differs_false in E. congruence.
    + unfold add_package_header at 1. now rewrite add_package_header_starts.
  - apply differs_false in D. repeat split; auto; try congruence.
    unfold add_package_header at 1. now rewrite add_package_header_starts.
Qed.

(** X20.  A file is left untouched, and [False] returned, when its text starts
    with [package], has no line that starts with [package main], holds
    neither [DEEP DIVE] nor [=== Example ] nor 200 equals signs, has no line
    with a marker phrase and no three newlines in a row. *)
Theorem simplify_go_file_untouched decimal content :
  startswith content (lit "package") = true ->
  forallb (fun l => negb (startswith l (lit "package main"))) (split_nl content) = true ->
  contains content (lit "DEEP DIVE") = false ->
  count 61%N content < 200 ->
  contains content (lit "=== Example ") = false ->
  forallb (fun l => negb (marker l)) (split_nl content) = true ->
  contains content [newline; newline; newline] = false ->
  simplify_go_file decimal content = (content, false).
Proof.
  intros Hp Hl Hd He Hx Hm Hn.
  assert (E : simplify_text decimal content = content).
  { unfold simplify_text. cbv zeta.
    rewrite relabel_fixed.
    2:{ apply Forall_forall. intros l Hin. rewrite forallb_forall in Hl.
        apply negb_true_iff. auto. }
    rewrite remove_deep_dive_unmatched by assumption.
    rewrite remove_section_headers_unmatched by assumption.
    rewrite rename_examples_identity_aux.
    rewrite remove_println_headers_unmatched by assumption.
    unfold remove_sections. rewrite skip_sections_clean, join_split.
    2:{ apply Forall_forall. intros l Hin. rewrite forallb_forall in Hm.
        apply negb_true_iff. auto. }
    rewrite collapse_blank_fixed.
    2:{ intros Ho. apply contains_iff in Ho. congruence. }
    unfold add_package_header. now rewrite Hp. }
  unfold simplify_go_file. cbv zeta.
  apply differs_false in E. now rewrite E.
Qed.

Lemma simplify_go_file_untouched_witness :
  let doc :=
    join_nl [lit "package intermediate"; []; lit "import fmt"; [];
             lit "// Example: a closure"; lit "func closureExample1() {";
             lit "  fmt.Println(1)"; lit "}"; []] in
  simplify_go_file ascii_digit doc = (doc, false).
Proof.
  cbv zeta. apply simplify_go_file_untouched; try (vm_compute; reflexivity).
  vm_compute. lia.
Defined.

(** No pattern of [simplify_go_file] matches the empty text: every word
    starts with a literal. *)
Lemma patterns_nonempty decimal r s :
  In r [deep_dive_block; section_header; example_function decimal;
        println_header decimal] ->
  match_here r s <> Some 0.
Proof.
  intros Hin M. destruct (match_here_sound _ _ _ M) as (w & rest & _ & Hl & Hw).
  destruct w; [|discriminate]. clear Hl M.
  cbn [In] in Hin.
  destruct Hin as [<-|[<-|[<-|[<-|[]]]]];
    inversion Hw as [|t r' w' Hw' Et Ew| | | |]; subst;
    match goal with E : _ ++ _ = [] |- _ => apply app_eq_nil in E as [E _]; discriminate E end.
Qed.

(** ** Fixed points of [aggressive_simplify] *)

(** X2.  Step 2 on a text: filtering twice is filtering once, for the lines and
    for the text they are joined into. *)
Theorem noise_filter_idempotent content :
  filter_lines (filter_lines (split_nl content)) = filter_lines (split_nl content) /\
  noise_filter (noise_filter content) = noise_filter content.
Proof.
  assert (H : filter_lines (filter_lines (split_nl content))
              = filter_lines (split_nl content))
    by apply filter_lines_settled, settled_filter_lines.
  split; [exact H|]. unfold noise_filter.
  destruct (join_lines (filter_lines (split_nl content))) as [->|[E ->]].
  - exact (filter_lines_Forall _ _ (split_nl_lines content)).
  - now rewrite H.
  - rewrite E. reflexivity.
Qed.

(** X9.  [aggressive_simplify] writes back the text it read when no line starts
    with [package main], opens a block comment, starts with 30 separators or
    holds [Example] without [func ], the entry header does not occur, and the
    text holds neither three newlines in a row nor a glyph of the clean-up
    class. *)
Theorem aggressive_simplify_untouched content :
  forallb (fun l => negb (startswith l (lit "package main")) && negb (opens_comment l)
                    && negb (decorative l) && negb (example_header l))
          (split_nl content) = true ->
  contains content entry_header = false ->
  contains content [newline; newline; newline] = false ->
  glyph_free content = true ->
  aggressive_simplify content = content.
Proof.
  intros Hl Hh Hn Hg. rewrite forallb_forall in Hl.
  apply aggressive_simplify_fixed.
  - apply Forall_forall. intros l Hin. specialize (Hl l Hin).
    repeat (apply andb_true_iff in Hl as [Hl ?]). now apply negb_true_iff.
  - assert (H : Forall (fun l => opens_comment l = false /\ decorative l = false
                                 /\ example_header l = false) (split_nl content)).
    { apply Forall_forall. intros l Hin. specialize (Hl l Hin).
      repeat (apply andb_true_iff in Hl as [Hl ?]).
      repeat split; now apply negb_true_iff. }
    clear Hl. induction H as [|l ls (Ho & Hd & He) Hls IH]; [reflexivity|].
    cbn [settled]. rewrite Ho, Hd, He. exact IH.
  - unfold block_scanner. destruct (find content entry_header) eqn:F; [|reflexivity].
    unfold contains in Hh. rewrite F in Hh. discriminate.
  - apply collapse_blank_fixed. intros Ho. apply contains_iff in Ho. congruence.
  - now apply glyph_free_iff.
Qed.

Lemma aggressive_simplify_untouched_witness :
  let doc :=
    join_nl [lit "package intermediate"; []; lit "// helpers";
             lit "func add(a, b int) int {"; lit "  return a + b"; lit "}"; []] in
  aggressive_simplify doc = doc.
Proof.
  cbv zeta. apply aggressive_simplify_untouched; vm_compute; reflexivity.
Defined.
